(** * go-tracey: a shallow embedding of [tracey.go]

    The tracer keeps two package-level maps ([currentDepth.d] and
    [entryTime.t]), resolves a label for every enter/exit call and writes
    lines to a logger.  The embedding below follows the source function by
    function: package state is threaded explicitly, a Go panic is an
    explicit outcome, and what the Go runtime supplies at each call (the
    goroutine id, the caller's frame, the wall clock) is an input of the
    call. *)

From Stdlib Require Import ZArith String Ascii List Lia.
From stdpp Require Import base option gmap strings list pretty.

Open Scope Z_scope.

(** ** Go's [int]: 64-bit two's complement *)

Module GoInt.

Definition min_int : Z := - 2 ^ 63.
Definition max_int : Z := 2 ^ 63 - 1.

(** The value an [int] holds after an arithmetic result [z]. *)
Definition wrap (z : Z) : Z := (z + 2 ^ 63) mod 2 ^ 64 - 2 ^ 63.

Definition add (a b : Z) : Z := wrap (a + b).
Definition sub (a b : Z) : Z := wrap (a - b).
Definition mul (a b : Z) : Z := wrap (a * b).

End GoInt.

(** ** Package [strings] and [strconv] *)

Module Strings.

Fixpoint repeat_nat (s : string) (n : nat) : string :=
  match n with
  | O => ""
  | S n' => s +:+ repeat_nat s n'
  end.

(** [strings.Repeat(s, count)]: panics when [count] is negative. *)
Definition Repeat (s : string) (count : Z) : option string :=
  if count <? 0 then None else Some (repeat_nat s (Z.to_nat count)).

(** [strconv.FormatUint(n, 10)]. *)
Definition FormatUint (n : N) : string := pretty n.

(** [strconv.Itoa(i)]. *)
Definition Itoa (i : Z) : string := pretty i.

(** Left padding with spaces up to [width] bytes, as the width of a
    [fmt] verb does. *)
Definition pad_left (width : nat) (s : string) : string :=
  repeat_nat " " (width - String.length s) +:+ s.

End Strings.

(** ** Package [time] *)

Module Time.

(** An instant is the number of nanoseconds since the zero [time.Time]
    (January 1, year 1, 00:00 UTC); the zero value of the type is [0].
    A [Duration] is an [int64] count of nanoseconds. *)
Definition zero : Z := 0.
Definition minDuration : Z := - 2 ^ 63.
Definition maxDuration : Z := 2 ^ 63 - 1.

(** [t.Sub(u)]: the difference, saturated to the range of [Duration]. *)
Definition Sub (t u : Z) : Z :=
  let d := t - u in
  if d <? minDuration then minDuration
  else if maxDuration <? d then maxDuration
  else d.

(** [time.Since(t)] is [time.Now().Sub(t)]. *)
Definition Since (now t : Z) : Z := Sub now t.

Definition digit (d : Z) : ascii := ascii_of_N (48 + Z.to_N d).

(** [fmtFrac]: the loop writes the digits of the fraction from the right,
    skipping trailing zeros; [buf] is the text already written. *)
Fixpoint fmtFrac_loop (prec : nat) (buf : string) (v : Z) (print : bool)
  : string * Z * bool :=
  match prec with
  | O => (buf, v, print)
  | S prec' =>
      let d := v mod 10 in
      let print := print || negb (d =? 0) in
      let buf := if print then String (digit d) buf else buf in
      fmtFrac_loop prec' buf (v / 10) print
  end.

Definition fmtFrac (buf : string) (v : Z) (prec : nat) : string * Z :=
  let '(buf, v, print) := fmtFrac_loop prec buf v false in
  (if print then String "." buf else buf, v).

(** [fmtInt]: the decimal digits of [v] in front of [buf]. *)
Definition fmtInt (buf : string) (v : Z) : string :=
  pretty (Z.to_N v) +:+ buf.

(** The two bytes of the UTF-8 encoding of the micro sign. *)
Definition micro : string :=
  String (ascii_of_N 194) (String (ascii_of_N 181) "").

(** [Duration.String]. *)
Definition Duration_String (d : Z) : string :=
  let u := Z.abs d in
  let body :=
    if u <? 1000000000 then
      if u =? 0 then "0s"
      else
        let '(unit, prec) :=
          if u <? 1000 then ("ns", 0%nat)
          else if u <? 1000000 then (micro +:+ "s", 3%nat)
          else ("ms", 6%nat) in
        let '(buf, u) := fmtFrac unit u prec in
        fmtInt buf u
    else
      let '(buf, u) := fmtFrac "s" u 9 in
      let buf := fmtInt buf (u mod 60) in
      let u := u / 60 in
      if 0 <? u then
        let buf := fmtInt (String "m" buf) (u mod 60) in
        let u := u / 60 in
        if 0 <? u then fmtInt (String "h" buf) u else buf
      else buf in
  if d <? 0 then String "-" body else body.

End Time.


(** ** Package [regexp]: the two patterns of the file *)

Module Regexp.

Definition is_newline (c : ascii) : bool := Ascii.eqb c (ascii_of_N 10).

Fixpoint has_newline (s : string) : bool :=
  match s with
  | "" => false
  | String c r => is_newline c || has_newline r
  end.

(** The text after the last slash of [s], if [s] has one: what the group
    of the pattern captures, the star before the slash being greedy. *)
Fixpoint after_last_slash (s : string) : option string :=
  match s with
  | "" => None
  | String c r =>
      match after_last_slash r with
      | Some t => Some t
      | None => if Ascii.eqb c "/" then Some r else None
      end
  end.

(** [RE_stripFnPreamble.ReplaceAllString(src, "$1")].  The pattern is
    anchored at both ends and [.] does not match a newline, so it matches
    the whole of [src] or nothing; without a match [src] is returned as it
    is. *)
Definition stripFnPreamble_ReplaceAllString (src : string) : string :=
  if has_newline src then src
  else match after_last_slash src with
       | Some t => t
       | None => src
       end.

(** Characters of a group name in a replacement template (ASCII letters,
    digits and the underscore; bytes outside ASCII are taken as not part
    of a name). *)
Definition is_digit (c : ascii) : bool :=
  let n := N_of_ascii c in ((48 <=? n) && (n <=? 57))%N.

Definition is_name_char (c : ascii) : bool :=
  let n := N_of_ascii c in
  (is_digit c || ((65 <=? n) && (n <=? 90)) || ((97 <=? n) && (n <=? 122))
   || (n =? 95))%N.

Fixpoint span_name (s : string) : string * string :=
  match s with
  | String c r =>
      if is_name_char c then let '(n, rest) := span_name r in (String c n, rest)
      else ("", s)
  | "" => ("", "")
  end.

(** The number a name denotes, or [-1] when it is not a number. *)
Fixpoint parse_num (name : string) (num : Z) : Z :=
  match name with
  | "" => num
  | String c r =>
      if negb (is_digit c) || (100000000 <=? num) then -1
      else parse_num r (num * 10 + Z.of_N (N_of_ascii c) - 48)
  end.

(** [extract]: the name at the head of a template, after a ["$"]. *)
Definition extract (str : string) : option (string * Z * string) :=
  match str with
  | "" => None
  | String c0 r0 =>
      let brace := Ascii.eqb c0 "{" in
      let '(name, after) := span_name (if brace then r0 else str) in
      match name with
      | "" => None
      | String n0 nr =>
          let num := parse_num name 0 in
          let num :=
            if Ascii.eqb n0 "0" && negb (String.eqb nr "") then -1 else num in
          if brace then
            match after with
            | String c rest =>
                if Ascii.eqb c "}" then Some (name, num, rest) else None
            | "" => None
            end
          else Some (name, num, after)
      end
  end.

(** [strings.Cut(s, "$")]. *)
Fixpoint cut_dollar (s : string) : option (string * string) :=
  match s with
  | "" => None
  | String c r =>
      if Ascii.eqb c "$" then Some ("", r)
      else match cut_dollar r with
           | Some (b, a) => Some (String c b, a)
           | None => None
           end
  end.

(** The rest of a template that starts with a second ["$"]. *)
Definition escaped_dollar (template : string) : option string :=
  match template with
  | String c t => if Ascii.eqb c "$" then Some t else None
  | "" => None
  end.

(** [expand] for a pattern without groups whose match is the text [m]:
    ["$$"] is a dollar sign, ["$0"] and ["${0}"] are the match, every
    other reference is empty, and a ["$"] that starts no reference is kept.
    Each round consumes a ["$"], so [fuel] above the length of the template
    is never used up. *)
Fixpoint expand (fuel : nat) (m template : string) : string :=
  match fuel with
  | O => template
  | S fuel' =>
      match cut_dollar template with
      | None => template
      | Some (before, after) =>
          before +:+
          match escaped_dollar after with
          | Some t => String "$" (expand fuel' m t)
          | None =>
              match extract after with
              | None => String "$" (expand fuel' m after)
              | Some (_, num, rest) =>
                  (if num =? 0 then m else "") +:+ expand fuel' m rest
              end
          end
      end
  end.

(** [RE_detectFN.ReplaceAllString(src, repl)]: every occurrence of the
    three bytes ["$FN"], left to right, is replaced by the expansion of
    [repl]. *)
Fixpoint replace_FN (src r : string) : string :=
  match src with
  | String "$" (String "F" (String "N" rest)) => r +:+ replace_FN rest r
  | String c rest => String c (replace_FN rest r)
  | "" => ""
  end.

Definition detectFN_ReplaceAllString (src repl : string) : string :=
  replace_FN src (expand (S (String.length repl)) "$FN" repl).

End Regexp.

(** ** Values of type [interface{}] and package [fmt] *)

Inductive value : Type :=
  | VString (s : string)
  | VInt (n : Z)
  | VBool (b : bool)
  | VNil.

(** The type assertion [v.(string)] in its two-result form. *)
Definition as_string (v : value) : string * bool :=
  match v with
  | VString s => (s, true)
  | _ => ("", false)
  end.

Module Fmt.

Definition type_name (v : value) : string :=
  match v with
  | VString _ => "string"
  | VInt _ => "int"
  | VBool _ => "bool"
  | VNil => "<nil>"
  end.

(** The operand under [%v]. *)
Definition default_format (v : value) : string :=
  match v with
  | VString s => s
  | VInt n => pretty n
  | VBool b => if b then "true" else "false"
  | VNil => "<nil>"
  end.

(** An operand under a verb it does not accept. *)
Definition bad_verb (verb : ascii) (v : value) : string :=
  match v with
  | VNil => "%!" +:+ String verb "(<nil>)"
  | _ => "%!" +:+ String verb ("(" +:+ type_name v +:+ "=" +:+ default_format v +:+ ")")
  end.

(** One operand under the verbs [d], [s] and [v]; [None] for every other
    verb. *)
Definition print_arg (verb : ascii) (v : value) : option string :=
  if Ascii.eqb verb "v" then Some (default_format v)
  else if Ascii.eqb verb "d" then
    Some match v with VInt n => pretty n | _ => bad_verb verb v end
  else if Ascii.eqb verb "s" then
    Some match v with VString s => s | _ => bad_verb verb v end
  else None.

Fixpoint extra (a : list value) : string :=
  match a with
  | [] => ""
  | [v] => match v with
           | VNil => "<nil>"
           | _ => type_name v +:+ "=" +:+ default_format v
           end
  | v :: a' =>
      match v with
      | VNil => "<nil>"
      | _ => type_name v +:+ "=" +:+ default_format v
      end +:+ ", " +:+ extra a'
  end.

(** [fmt.Sprintf] on the fragment of formats whose verbs are [%d], [%s],
    [%v] and [%%] without flags, width or precision; [None] outside it. *)
Fixpoint Sprintf_frag (format : string) (a : list value) : option string :=
  match format with
  | "" =>
      Some match a with
           | [] => ""
           | _ => "%!(EXTRA " +:+ extra a +:+ ")"
           end
  | String "%" "" => match a with
                     | [] => Some "%!(NOVERB)"
                     | _ => Some ("%!(NOVERB)%!(EXTRA " +:+ extra a +:+ ")")
                     end
  | String "%" (String verb rest) =>
      if Ascii.eqb verb "%" then String "%" <$> Sprintf_frag rest a
      else
        match a with
        | [] =>
            if Ascii.eqb verb "d" || Ascii.eqb verb "s" || Ascii.eqb verb "v"
            then (λ r, "%!" +:+ String verb ("(MISSING)" +:+ r))
                   <$> Sprintf_frag rest []
            else None
        | v :: a' =>
            match print_arg verb v with
            | Some p => (λ r, p +:+ r) <$> Sprintf_frag rest a'
            | None => None
            end
        end
  | String c rest => String c <$> Sprintf_frag rest a
  end.

(** A total function that agrees with [fmt.Sprintf] on that fragment. *)
Definition Sprintf_model (format : string) (a : list value) : string :=
  default "" (Sprintf_frag format a).

End Fmt.

(** ** Options, package state and the effects of a call *)

(** A [*log.Logger]; the tracer only hands it finished lines. *)
Inductive Logger : Type :=
  | StdoutLogger               (* log.New(os.Stdout, "", 0) *)
  | CustomLoggerAt (id : nat).

Record Options : Type := mkOptions {
  DisableTracing : bool;
  CustomLogger : option Logger;          (* [None] is the nil pointer *)
  DisableDepthValue : bool;
  DisableNesting : bool;
  SpacesPerIndent : Z;
  EnterMessage : string;
  ExitMessage : string;
  EnableInstrumentation : bool
}.

(** The zero value of [Options], used when [New] is given [nil]. *)
Definition zero_Options : Options :=
  mkOptions false None false false 0 "" "" false.

(** The [default] struct tags that [New] reads by reflection. *)
Definition default_SpacesPerIndent : Z := 2.
Definition default_EnterMessage : string := "ENTER: ".
Definition default_ExitMessage : string := "EXIT:  ".

(** The package-level variables [currentDepth.d] and [entryTime.t]
    ([None] is the nil map they hold before any [make]), and what has been
    handed to the loggers so far, oldest first. *)
Record State : Type := mkState {
  currentDepth_d : option (gmap N Z);
  entryTime_t : option (gmap string Z);
  sink : list (Logger * string)
}.

Definition init_State : State := mkState None None [].

(** What the runtime answers to [runtime.Caller(2)] and
    [runtime.FuncForPC(pc).Name()]. *)
Record Frame : Type := mkFrame {
  frame_ok : bool;
  frame_fn : string;
  frame_file : string;
  frame_line : Z
}.

(** What the runtime supplies during one call of enter or exit: the
    goroutine id that [_getGID] parses, the frame two levels up, and the
    clock. *)
Record Env : Type := mkEnv {
  GID : N;
  caller : Frame;
  Now : Z
}.

(** A call returns normally or panics; both leave a state behind. *)
Inductive Res (A : Type) : Type :=
  | Ok (a : A) (st : State)
  | Panic (msg : string) (st : State).
Arguments Ok {A} a st.
Arguments Panic {A} msg st.

Definition M (A : Type) : Type := State → Res A.

Definition ret {A} (a : A) : M A := λ st, Ok a st.

Definition bind {A B} (m : M A) (k : A → M B) : M B :=
  λ st, match m st with
        | Ok a st' => k a st'
        | Panic msg st' => Panic msg st'
        end.

Notation "'do' x <- m ; k" := (bind m (λ x, k))
  (at level 10, x name, m at level 100, k at level 200).

Definition panic {A} (msg : string) : M A := λ st, Panic msg st.

Definition get : M State := λ st, Ok st st.

Definition when (b : bool) (m : M unit) : M unit := if b then m else ret tt.

(** [defer f()] at the head of a body: [f] runs when the body returns and
    also when it panics, and the panic goes on afterwards. *)
Definition defer {A} (f : M unit) (body : M A) : M A :=
  λ st, match body st with
        | Ok a st' =>
            match f st' with
            | Ok _ st'' => Ok a st''
            | Panic msg st'' => Panic msg st''
            end
        | Panic msg st' =>
            match f st' with
            | Ok _ st'' => Panic msg st''
            | Panic msg' st'' => Panic msg' st''
            end
        end.

Definition final_state {A} (r : Res A) : State :=
  match r with
  | Ok _ st => st
  | Panic _ st => st
  end.

Definition returns {A} (r : Res A) : bool :=
  match r with
  | Ok _ _ => true
  | Panic _ _ => false
  end.

(** Reading a map gives the zero value for an absent key and for the nil
    map. *)
Definition depth_of (st : State) (gid : N) : Z :=
  match currentDepth_d st with
  | Some d => default 0 (d !! gid)
  | None => 0
  end.

Definition entry_of (st : State) (label : string) : Z :=
  match entryTime_t st with
  | Some t => default Time.zero (t !! label)
  | None => Time.zero
  end.

(** Writing to the nil map panics. *)
Definition set_depth (gid : N) (v : Z) : M unit :=
  λ st, match currentDepth_d st with
        | Some d => Ok tt (mkState (Some (<[gid := v]> d)) (entryTime_t st) (sink st))
        | None => Panic "assignment to entry in nil map" st
        end.

Definition set_entry (label : string) (v : Z) : M unit :=
  λ st, match entryTime_t st with
        | Some t => Ok tt (mkState (currentDepth_d st) (Some (<[label := v]> t)) (sink st))
        | None => Panic "assignment to entry in nil map" st
        end.

(** [delete(m, k)] does nothing on the nil map. *)
Definition delete_entry (label : string) : M unit :=
  λ st, Ok tt (mkState (currentDepth_d st) (delete label <$> entryTime_t st) (sink st)).

(** [l.Printf] and [l.Println] with the text they produce; a nil logger
    is a nil dereference. *)
Definition Logger_write (l : option Logger) (text : string) : M unit :=
  λ st, match l with
        | Some lg => Ok tt (mkState (currentDepth_d st) (entryTime_t st) (sink st ++ [(lg, text)]))
        | None => Panic "invalid memory address or nil pointer dereference" st
        end.

Definition newline : string := String (ascii_of_N 10) "".

Definition Logger_Println (l : option Logger) (text : string) : M unit :=
  Logger_write l (text +:+ newline).

(** ** The tracer: [New] and the closures it builds *)

Section Tracer.

(** [fmt.Sprintf] is a parameter of the development: what is proved holds
    for whatever it computes. *)
Variable Sprintf : string → list value → string.

Section Closures.

(** The [options] variable the closures capture, after [New] has filled
    it in. *)
Variable options : Options.

Definition _getGID (env : Env) : N := GID env.

Definition _spacify (env : Env) : M string :=
  if negb (DisableNesting options) then
    do st <- get;
    let d := depth_of st (_getGID env) in
    match Strings.Repeat " " (GoInt.mul d (SpacesPerIndent options)) with
    | None => panic "strings: negative Repeat count"
    | Some spaces =>
        if negb (DisableDepthValue options) then
          ret ("[" +:+ Strings.pad_left 2 (Strings.Itoa d) +:+ "]" +:+ spaces)
        else ret spaces
    end
  else ret "".

Definition _incrementDepth (env : Env) : M unit :=
  when (negb (DisableNesting options))
    (do st <- get;
     set_depth (_getGID env) (GoInt.add (depth_of st (_getGID env)) 1)).

Definition depth_warning : string :=
  "Warning: depth became negative in tracey, when attempting to decrement.".

Definition _decrementDepth (env : Env) : M unit :=
  when (negb (DisableNesting options))
    (let gid := _getGID env in
     do st <- get;
     do _ <- set_depth gid (GoInt.sub (depth_of st gid) 1);
     do st <- get;
     when (depth_of st gid <? 0)
       (do _ <- Logger_Println (CustomLogger options) depth_warning;
        set_depth gid 0)).

(** The name of the calling function as [_getname] resolves it. *)
Definition resolve_fnName (fr : Frame) : string :=
  let fnName :=
    if frame_ok fr then Regexp.stripFnPreamble_ReplaceAllString (frame_fn fr)
    else "<unknown>" in
  if String.eqb fnName "" then frame_file fr +:+ Strings.Itoa (frame_line fr)
  else fnName.

Definition _getname (env : Env) (s : list value) : string :=
  let fnName := resolve_fnName (caller env) in
  let tid := "[tid:" +:+ Strings.FormatUint (_getGID env) in
  let '(tid, traceMessage) :=
    match s with
    | [] => (tid, "")
    | s0 :: rest =>
        let '(fmtStr, ok) := as_string s0 in
        if (length s =? 1)%nat && ok then (tid +:+ " - " +:+ fmtStr, "")
        else if ok then (tid, Sprintf fmtStr rest)
        else (tid, "")
    end in
  tid +:+ "]=>" +:+ Regexp.detectFN_ReplaceAllString traceMessage fnName.

Definition _exit (env : Env) : M unit :=
  do _ <- _decrementDepth env;
  let fname := _getname env [] in
  do st <- get;
  let fname :=
    if EnableInstrumentation options then
      fname +:+ " ... in "
        +:+ Time.Duration_String (Time.Since (Now env) (entry_of st fname))
    else fname in
  do spaces <- _spacify env;
  do _ <- Logger_write (CustomLogger options)
            (spaces +:+ ExitMessage options +:+ fname +:+ newline);
  when (EnableInstrumentation options) (delete_entry fname).

(** The functions that [New] and enter return: closures over [options],
    or the two no-ops. *)
Inductive ExitFn : Type :=
  | exit_noop
  | exit_closure (o : Options).

Inductive EnterFn : Type :=
  | enter_noop
  | enter_closure (o : Options).

Definition _enter (env : Env) (s : list value) : M ExitFn :=
  defer (_incrementDepth env)
    (let fname := _getname env s in
     do _ <- when (EnableInstrumentation options) (set_entry fname (Now env));
     do spaces <- _spacify env;
     do _ <- Logger_write (CustomLogger options)
               (spaces +:+ EnterMessage options +:+ fname +:+ newline);
     ret (exit_closure options)).

End Closures.

(** Calling what [New] returned, and what that returned. *)
Definition call_enter (f : EnterFn) (env : Env) (s : list value) : M ExitFn :=
  match f with
  | enter_noop => ret exit_noop
  | enter_closure o => _enter o env s
  end.

Definition call_exit (f : ExitFn) (env : Env) : M unit :=
  match f with
  | exit_noop => ret tt
  | exit_closure o => _exit o env
  end.

(** The options as [New] leaves them before it builds the closures. *)
Definition resolve_options (o : Options) : Options :=
  mkOptions
    (DisableTracing o)
    (match CustomLogger o with None => Some StdoutLogger | l => l end)
    (DisableDepthValue o)
    (DisableNesting o)
    (if DisableNesting o then 0
     else if SpacesPerIndent o =? 0 then default_SpacesPerIndent
     else SpacesPerIndent o)
    (if String.eqb (EnterMessage o) "" then default_EnterMessage
     else EnterMessage o)
    (if String.eqb (ExitMessage o) "" then default_ExitMessage
     else ExitMessage o)
    (EnableInstrumentation o).

Definition New (opts : option Options) : M EnterFn :=
  let options := default zero_Options opts in
  if DisableTracing options then ret enter_noop
  else
    let options := resolve_options options in
    do _ <- (λ st,
      Ok tt (mkState
               (if DisableNesting options then currentDepth_d st else Some ∅)
               (if EnableInstrumentation options then Some ∅ else entryTime_t st)
               (sink st)));
    ret (enter_closure options).

End Tracer.

(** ** Programs that use a tracer *)

(** A sequence of calls on one tracer: an enter with its arguments, or a
    call of the [k]-th exit function returned so far (nothing happens when
    there is no such function yet). *)
Inductive Event : Type :=
  | EvEnter (env : Env) (s : list value)
  | EvExit (env : Env) (k : nat).

Fixpoint run_events (Sprintf : string → list value → string)
    (f : EnterFn) (returned : list ExitFn) (evs : list Event) : M unit :=
  match evs with
  | [] => ret tt
  | EvEnter env s :: evs' =>
      do x <- call_enter Sprintf f env s;
      run_events Sprintf f (returned ++ [x]) evs'
  | EvExit env k :: evs' =>
      do _ <- match returned !! k with
              | Some x => call_exit Sprintf x env
              | None => ret tt
              end;
      run_events Sprintf f returned evs'
  end.

(** Strictly nested traced calls, as [defer Trace(args...)()] at the head
    of each function produces them: a call enters, runs the traced calls
    of its body, exits, and the calls that follow it come next. *)
Inductive Calls : Type :=
  | Done
  | Call (env_in : Env) (s : list value) (body : Calls) (env_out : Env)
         (next : Calls).

Fixpoint run_calls (Sprintf : string → list value → string)
    (f : EnterFn) (c : Calls) : M unit :=
  match c with
  | Done => ret tt
  | Call env_in s body env_out next =>
      do x <- call_enter Sprintf f env_in s;
      do _ <- run_calls Sprintf f body;
      do _ <- call_exit Sprintf x env_out;
      run_calls Sprintf f next
  end.

(** The deepest nesting of a program. *)
Fixpoint height (c : Calls) : Z :=
  match c with
  | Done => 0
  | Call _ _ body _ next => Z.max (1 + height body) (height next)
  end.

(** Every call of the program runs on goroutine [g]. *)
Fixpoint on_goroutine (g : N) (c : Calls) : Prop :=
  match c with
  | Done => True
  | Call env_in _ body env_out next =>
      GID env_in = g ∧ GID env_out = g
      ∧ on_goroutine g body ∧ on_goroutine g next
  end.

(** ** Reading the goroutine id from the stack trace *)

Module Bytes.

Fixpoint strip_prefix (s prefix : string) {struct prefix} : option string :=
  match prefix with
  | "" => Some s
  | String p prefix' =>
      match s with
      | String c s' => if Ascii.eqb c p then strip_prefix s' prefix' else None
      | "" => None
      end
  end.

(** [bytes.TrimPrefix(s, prefix)]: [s] without the prefix, or [s] itself
    when it does not start with it. *)
Definition TrimPrefix (s prefix : string) : string :=
  default s (strip_prefix s prefix).

(** [bytes.IndexByte(s, c)]: the index of the first [c], or [-1]. *)
Fixpoint IndexByte (s : string) (c : ascii) : Z :=
  match s with
  | "" => -1
  | String x s' =>
      if Ascii.eqb x c then 0
      else let i := IndexByte s' c in if i <? 0 then -1 else 1 + i
  end.

Fixpoint take (n : nat) (s : string) : string :=
  match n, s with
  | S n', String c s' => String c (take n' s')
  | _, _ => ""
  end.

(** The slice expression [s[:i]]: a negative bound or one past the end
    panics. *)
Definition slice_to (s : string) (i : Z) : option string :=
  if (i <? 0) || (Z.of_nat (String.length s) <? i) then None
  else Some (take (Z.to_nat i) s).

End Bytes.

Module Strconv.

Definition maxUint64 : N := 2 ^ 64 - 1.
Definition cutoff : N := maxUint64 / 10 + 1.

(** The loop of [strconv.ParseUint(s, 10, 64)] with the value it returns:
    [0] at a byte that is not a decimal digit, the largest [uint64] when
    the number does not fit. *)
Fixpoint ParseUint_loop (s : string) (n : N) : N :=
  match s with
  | "" => n
  | String c r =>
      if Regexp.is_digit c then
        if (cutoff <=? n)%N then maxUint64
        else
          let n1 := (n * 10 + (N_of_ascii c - 48))%N in
          if (maxUint64 <? n1)%N then maxUint64 else ParseUint_loop r n1
      else 0%N
  end.

Definition ParseUint (s : string) : N :=
  if String.eqb s "" then 0%N else ParseUint_loop s 0.

End Strconv.

(** The body of [_getGID] on the text [stack] that [runtime.Stack] wrote
    into the 64-byte buffer: [None] is the panic of the slice expression
    when the text has no space after the prefix. *)
Definition _getGID_parse (stack : string) : option N :=
  let b := Bytes.TrimPrefix stack "goroutine " in
  match Bytes.slice_to b (Bytes.IndexByte b " ") with
  | None => None
  | Some b => Some (Strconv.ParseUint b)
  end.

(** Whether every byte of a text is a decimal digit. *)
Fixpoint all_digits (s : string) : bool :=
  match s with
  | "" => true
  | String c r => Regexp.is_digit c && all_digits r
  end.

(** ** Reference renderings used in the statements *)

(** The text [_spacify] produces at depth [d] when nesting is enabled and
    the indent width is not negative. *)
Definition indent_at (o : Options) (d : Z) : string :=
  let spaces := Strings.repeat_nat " " (Z.to_nat (d * SpacesPerIndent o)) in
  if DisableDepthValue o
  then spaces
  else "[" +:+ Strings.pad_left 2 (Strings.Itoa d) +:+ "]" +:+ spaces.

(** The label of a call on goroutine [gid] that carries no message. *)
Definition bare_label (gid : N) : string :=
  "[tid:" +:+ Strings.FormatUint gid +:+ "]=>".

(** What [_exit] prints after the exit message. *)
Definition exit_text (Sprintf : string → list value → string)
    (o : Options) (env : Env) (st : State) : string :=
  let fname := _getname Sprintf env [] in
  if EnableInstrumentation o then
    fname +:+ " ... in "
      +:+ Time.Duration_String (Time.Since (Now env) (entry_of st fname))
  else fname.

(** Whether the timing table holds a start time for [label]. *)
Definition timing_entry (st : State) (label : string) : option Z :=
  entryTime_t st ≫= (λ t, t !! label).

(** A computation that leaves a component [f] of the state alone, whether
    it returns or panics. *)
Definition keeps {A X} (f : State → X) (m : M A) : Prop :=
  ∀ st, f (final_state (m st)) = f st.

(** A computation that only appends to what the loggers received: at
    most [k] lines, all handed to the logger [lg], in every outcome. *)
Definition appends {A} (k : nat) (lg : option Logger) (m : M A) : Prop :=
  ∀ st, ∃ l,
    sink (final_state (m st)) = sink st ++ l
    ∧ (length l ≤ k)%nat
    ∧ ∀ p, p ∈ l → lg = Some p.1.

(** The number of enter calls in a sequence, and of calls in a program. *)
Fixpoint count_enters (evs : list Event) : Z :=
  match evs with
  | [] => 0
  | EvEnter _ _ :: evs' => 1 + count_enters evs'
  | EvExit _ _ :: evs' => count_enters evs'
  end.

Fixpoint calls (c : Calls) : nat :=
  match c with
  | Done => 0
  | Call _ _ body _ next => S (calls body + calls next)
  end.

(** The depth map is allocated and holds depths between 0 and [k]. *)
Definition depths_within (k : Z) (st : State) : Prop :=
  is_Some (currentDepth_d st) ∧ ∀ g, 0 ≤ depth_of st g ≤ k.

(** ** Concrete inputs *)

Module Sample.

(** Midnight UTC of 3 November 2026. *)
Definition T0 : Z := 63929260800000000000.

Definition ms : Z := 1000000.

(** A function [foo] of package [main], on goroutine 1. *)
Definition frame_foo : Frame := mkFrame true "main.foo" "/src/app/foo.go" 18.
Definition in_foo (now : Z) : Env := mkEnv 1 frame_foo now.

(** A function of a package that is imported by path. *)
Definition frame_util : Frame :=
  mkFrame true "github.com/sujitvp/app/util.foo" "/src/app/util/foo.go" 7.

Definition frame_main : Frame := mkFrame true "main.main" "/src/app/foo.go" 26.
Definition in_main (now : Z) : Env := mkEnv 1 frame_main now.

(** [&tracey.Options{EnableInstrumentation: true}]. *)
Definition timed : Options := mkOptions false None false false 0 "" "" true.

(** Two tracers that differ in their loggers only. *)
Definition optsA : Options :=
  mkOptions false (Some (CustomLoggerAt 1)) false false 0 "" "" true.
Definition optsB : Options :=
  mkOptions false (Some (CustomLoggerAt 2)) false false 0 "" "" true.

(** The traced calls in the body of [main]: [foo(1)], which calls
    [foo(0)]. *)
Definition body_of_main : Calls :=
  Call (in_foo (T0 + 1 * ms)) [VString "$FN(%d)"; VInt 1]
    (Call (in_foo (T0 + 2 * ms)) [VString "$FN(%d)"; VInt 0]
       Done (in_foo (T0 + 3 * ms)) Done)
    (in_foo (T0 + 4 * ms)) Done.

(** The state after [New(opts)] in a fresh process. *)
Definition after_New (opts : option Options) : State :=
  final_state (New opts init_State).

End Sample.

(** More concrete inputs: a second goroutine, options with an indent width
    below zero, a sequence of calls with an exit too many, and two nested
    calls. *)
Module Inputs.

Definition in_worker (now : Z) : Env :=
  mkEnv 2 (mkFrame true "main.worker" "/src/app/worker.go" 40) now.

Definition backwards : Options :=
  mkOptions false None false false (-1) "" "" false.

Definition quiet : Options :=
  mkOptions false None true true 3 "" "" false.

Definition mixed_events : list Event :=
  [EvEnter (Sample.in_main Sample.T0) [];
   EvEnter (in_worker Sample.T0) [VString "job %d"; VInt 7];
   EvExit (Sample.in_main Sample.T0) 0;
   EvExit (Sample.in_main Sample.T0) 0;
   EvExit (in_worker Sample.T0) 1].

Definition main_calls_foo : Calls :=
  Call (Sample.in_main Sample.T0) [] Sample.body_of_main
    (Sample.in_main (Sample.T0 + 5 * Sample.ms)) Done.

(** The state one enter without arguments in [main] leaves after
    [New(opts)] in a fresh process. *)
Definition one_call_open (opts : Options) : State :=
  final_state
    (_enter Fmt.Sprintf_model (resolve_options opts)
       (Sample.in_main Sample.T0) [] (Sample.after_New (Some opts))).

End Inputs.

(** ** Properties *)

Section Properties.

Variable Sprintf : string → list value → string.

(** Goals about the range of [int]. *)
Ltac int_range := unfold GoInt.min_int, GoInt.max_int in *; lia.

Create HintDb frame discriminated.

(** *** Arithmetic of [int] and of strings *)

Lemma wrap_in_range z :
  GoInt.min_int ≤ z ≤ GoInt.max_int → GoInt.wrap z = z.
Proof.
  unfold GoInt.wrap, GoInt.min_int, GoInt.max_int. intros H.
  rewrite Z.mod_small; lia.
Qed.

Lemma append_cons (c : ascii) (a b : string) :
  String c a +:+ b = String c (a +:+ b).
Proof. reflexivity. Qed.

Lemma append_assoc (a b c : string) : (a +:+ b) +:+ c = a +:+ b +:+ c.
Proof.
  induction a as [|x a IH]; [done |].
  by rewrite !append_cons, IH.
Qed.

Lemma append_nil_r (a : string) : a +:+ "" = a.
Proof. induction a as [|x a IH]; [done | by rewrite append_cons, IH]. Qed.

Lemma append_longer (a b : string) : a +:+ b = a → b = "".
Proof.
  intros H. apply (inj (String.append a)). by rewrite append_nil_r.
Qed.

(** *** The replacement template *)

Lemma cut_dollar_shorter t b a :
  Regexp.cut_dollar t = Some (b, a) → (String.length a < String.length t)%nat.
Proof.
  revert b. induction t as [|c t IH]; intros b; cbn; [done|].
  destruct (Ascii.eqb c "$").
  - intros [= <- <-]. lia.
  - destruct (Regexp.cut_dollar t) as [[b' a']|]; [|done].
    intros [= <- <-]. specialize (IH b' eq_refl). lia.
Qed.

Lemma span_name_shorter s n r :
  Regexp.span_name s = (n, r) → (String.length r ≤ String.length s)%nat.
Proof.
  revert n. induction s as [|c s IH]; intros n; cbn.
  - by intros [= <- <-].
  - destruct (Regexp.is_name_char c).
    + destruct (Regexp.span_name s) as [n' r']. intros [= <- <-].
      specialize (IH n' eq_refl). lia.
    + intros [= <- <-]. cbn. lia.
Qed.

Lemma extract_shorter str name num rest :
  Regexp.extract str = Some (name, num, rest) →
  (String.length rest ≤ String.length str)%nat.
Proof.
  unfold Regexp.extract. destruct str as [|c0 r0]; [done|].
  destruct (Ascii.eqb c0 "{").
  - destruct (Regexp.span_name r0) as [n a] eqn:Hs.
    apply span_name_shorter in Hs. destruct n as [|n0 nr]; [done|].
    destruct a as [|c rest']; [done|]. destruct (Ascii.eqb c "}"); [|done].
    intros [= _ _ <-]. cbn in *. lia.
  - destruct (Regexp.span_name (String c0 r0)) as [n a] eqn:Hs.
    apply span_name_shorter in Hs. destruct n as [|n0 nr]; [done|].
    by intros [= _ _ <-].
Qed.

(** The fuel of [expand] is never the reason for a result: any two
    amounts above the length of the template give the same text. *)
Lemma expand_fuel m n :
  ∀ n' t,
    (String.length t < n)%nat → (String.length t < n')%nat →
    Regexp.expand n m t = Regexp.expand n' m t.
Proof.
  induction n as [|n IH]; intros n' t Hn Hn'; [lia|].
  destruct n' as [|n']; [lia|]. cbn [Regexp.expand].
  destruct (Regexp.cut_dollar t) as [[b a]|] eqn:Hc; [|done].
  apply cut_dollar_shorter in Hc. f_equal.
  destruct (Regexp.escaped_dollar a) as [t'|] eqn:He.
  - f_equal. apply IH; destruct a as [|c a']; cbn in He; try done;
      destruct (Ascii.eqb c "$"); simplify_eq; cbn in *; lia.
  - destruct (Regexp.extract a) as [[[nm num] rest]|] eqn:Hx.
    + apply extract_shorter in Hx. f_equal. apply IH; lia.
    + f_equal. apply IH; lia.
Qed.

Lemma expand_plain n m t :
  Regexp.cut_dollar t = None → Regexp.expand n m t = t.
Proof. intros Hc. destruct n; cbn; [done|]. by rewrite Hc. Qed.

(** A name without a slash, such as that of a function of package [main],
    is returned as it is. *)
Lemma strip_without_slash name :
  Regexp.after_last_slash name = None →
  Regexp.stripFnPreamble_ReplaceAllString name = name.
Proof.
  intros Hs. unfold Regexp.stripFnPreamble_ReplaceAllString. rewrite Hs.
  by destruct (Regexp.has_newline name).
Qed.

(** *** Labels *)

Lemma getname_no_args env : _getname Sprintf env [] = bare_label (GID env).
Proof.
  unfold _getname, bare_label, _getGID. cbn -[String.append pretty].
  by rewrite !append_assoc.
Qed.

(** C7.  A single string argument ends up verbatim after the tid, whatever
    the calling function is and whatever the string contains; without
    arguments the label is the tid tag followed by ["]=>"]. *)
Theorem C7_literal_suffix_and_empty_body env x :
  _getname Sprintf env [VString x]
    = "[tid:" +:+ Strings.FormatUint (GID env) +:+ " - " +:+ x +:+ "]=>"
  ∧ _getname Sprintf env []
    = "[tid:" +:+ Strings.FormatUint (GID env) +:+ "]=>".
Proof.
  split; [| apply getname_no_args].
  unfold _getname, _getGID. cbn -[String.append pretty].
  by rewrite !append_assoc.
Qed.

(** C9.  When the first argument is not a string, the label is the one of
    a call without arguments, whatever the other arguments are. *)
Theorem C9_non_string_first_argument env v rest :
  (∀ x, v ≠ VString x) →
  _getname Sprintf env (v :: rest) = _getname Sprintf env [].
Proof.
  intros Hv. unfold _getname.
  destruct v as [x| | |]; [by destruct (Hv x) | ..];
    cbn -[String.append pretty]; by rewrite andb_false_r.
Qed.

(** *** What a step leaves alone *)

Lemma depth_of_insert dm t k g v :
  depth_of (mkState (Some (<[g:=v]> dm)) t k) g = v.
Proof. unfold depth_of. cbn. by rewrite lookup_insert_eq. Qed.

Lemma depth_of_insert_ne dm t k g g' v st :
  currentDepth_d st = Some dm → g ≠ g' →
  depth_of (mkState (Some (<[g:=v]> dm)) t k) g' = depth_of st g'.
Proof.
  intros Hd Hne. unfold depth_of. rewrite Hd. cbn.
  by rewrite lookup_insert_ne.
Qed.

Lemma depth_of_mk st dm t k g :
  currentDepth_d st = Some dm →
  depth_of (mkState (Some dm) t k) g = depth_of st g.
Proof. intros Hd. unfold depth_of. by rewrite Hd. Qed.

Lemma entry_of_mk st d k label :
  entry_of (mkState d (entryTime_t st) k) label = entry_of st label.
Proof. done. Qed.

Lemma keeps_ret {A X} (f : State → X) (a : A) : keeps f (ret a).
Proof. by intros st. Qed.

Lemma keeps_bind {A B X} (f : State → X) (m : M A) (k : A → M B) :
  keeps f m → (∀ a, keeps f (k a)) → keeps f (bind m k).
Proof.
  intros Hm Hk st. unfold bind. specialize (Hm st).
  destruct (m st) as [a st'|msg st']; cbn in *; [|done].
  by rewrite Hk.
Qed.

Lemma keeps_when {X} (f : State → X) b (m : M unit) :
  keeps f m → keeps f (when b m).
Proof. intros Hm. destruct b; [done | apply keeps_ret]. Qed.

Lemma final_defer {A} (f : M unit) (body : M A) st :
  final_state (defer f body st) = final_state (f (final_state (body st))).
Proof.
  unfold defer. destruct (body st) as [a st'|msg st']; cbn [final_state];
    by destruct (f st').
Qed.

Lemma depths_set_entry label v : keeps currentDepth_d (set_entry label v).
Proof. intros st. unfold set_entry. by destruct (entryTime_t st). Qed.

Lemma depths_Logger_write l text : keeps currentDepth_d (Logger_write l text).
Proof. intros st. unfold Logger_write. by destruct l. Qed.

Lemma times_Logger_write l text : keeps entryTime_t (Logger_write l text).
Proof. intros st. unfold Logger_write. by destruct l. Qed.

Lemma spacify_keeps {X} (f : State → X) o env : keeps f (_spacify o env).
Proof.
  intros st. unfold _spacify, bind, get, ret, panic.
  destruct (DisableNesting o); cbn [negb]; [done|].
  destruct (Strings.Repeat _ _); [|done].
  by destruct (DisableDepthValue o).
Qed.

Lemma spacify_reads o env st :
  final_state (_spacify o env st) = st.
Proof.
  unfold _spacify, bind, get, ret, panic.
  destruct (DisableNesting o); cbn [negb]; [done|].
  destruct (Strings.Repeat _ _); [|done].
  by destruct (DisableDepthValue o).
Qed.

Lemma times_incrementDepth o env : keeps entryTime_t (_incrementDepth o env).
Proof.
  intros st. unfold _incrementDepth, when, bind, get, set_depth, ret.
  destruct (DisableNesting o); cbn [negb]; [done|].
  by destruct (currentDepth_d st).
Qed.

Lemma decrementDepth_times o env : keeps entryTime_t (_decrementDepth o env).
Proof.
  intros st. unfold _decrementDepth, when, bind, get, set_depth, ret,
    Logger_Println, Logger_write.
  destruct (DisableNesting o); cbn [negb]; [done|].
  destruct (currentDepth_d st); [|done]. cbn [currentDepth_d entryTime_t sink].
  destruct (_ <? 0); [|done].
  by destruct (CustomLogger o).
Qed.

#[local] Hint Resolve keeps_ret keeps_when depths_set_entry
  depths_Logger_write times_Logger_write spacify_keeps : frame.

(** *** The depth tracker *)

(** [_spacify] computes [indent_at] of the current depth. *)
Lemma spacify_nesting o env st :
  DisableNesting o = false →
  0 ≤ depth_of st (GID env) * SpacesPerIndent o ≤ GoInt.max_int →
  _spacify o env st = Ok (indent_at o (depth_of st (GID env))) st.
Proof.
  intros Hn Hr. unfold _spacify, _getGID, bind, get, ret, indent_at.
  rewrite Hn. cbn [negb]. unfold GoInt.mul, Strings.Repeat.
  rewrite wrap_in_range by int_range.
  destruct (Z.ltb_spec (depth_of st (GID env) * SpacesPerIndent o) 0); [lia|].
  by destruct (DisableDepthValue o).
Qed.

Lemma spacify_no_nesting o env st :
  DisableNesting o = true → _spacify o env st = Ok "" st.
Proof. intros Hn. unfold _spacify. by rewrite Hn. Qed.

Lemma decrementDepth_nested o env st dm :
  DisableNesting o = false →
  currentDepth_d st = Some dm →
  1 ≤ depth_of st (GID env) ≤ GoInt.max_int →
  _decrementDepth o env st
  = Ok tt (mkState (Some (<[GID env := depth_of st (GID env) - 1]> dm))
             (entryTime_t st) (sink st)).
Proof.
  intros Hn Hd Hr.
  unfold _decrementDepth, _getGID, when, bind, get, set_depth.
  rewrite Hn. cbn [negb]. rewrite Hd. cbn [currentDepth_d entryTime_t sink].
  rewrite depth_of_insert. unfold GoInt.sub.
  rewrite wrap_in_range by int_range.
  destruct (Z.ltb_spec (depth_of st (GID env) - 1) 0); [lia | done].
Qed.

(** C4.  With nesting enabled, [_decrementDepth] always returns (it never
    panics), leaves a depth that is not negative, and touches neither the
    timing table nor the depth of another goroutine.  When the depth was
    already 0 it is 0 afterwards and exactly one warning line has gone to
    the logger; when it was positive no line is written. *)
Theorem C4_decrement_below_zero o env st dm lg :
  DisableNesting o = false →
  CustomLogger o = Some lg →
  currentDepth_d st = Some dm →
  ∃ st',
    _decrementDepth o env st = Ok tt st'
    ∧ 0 ≤ depth_of st' (GID env)
    ∧ entryTime_t st' = entryTime_t st
    ∧ (∀ g, g ≠ GID env → depth_of st' g = depth_of st g)
    ∧ (depth_of st (GID env) = 0 →
       depth_of st' (GID env) = 0
       ∧ sink st' = sink st ++ [(lg, depth_warning +:+ newline)])
    ∧ (0 < depth_of st (GID env) ≤ GoInt.max_int →
       depth_of st' (GID env) = depth_of st (GID env) - 1
       ∧ sink st' = sink st).
Proof.
  intros Hn Hl Hd.
  unfold _decrementDepth, _getGID, when, bind, get, set_depth, Logger_Println,
    Logger_write.
  rewrite Hn, Hl. cbn [negb]. rewrite Hd. cbn [currentDepth_d entryTime_t sink].
  set (g := GID env). rewrite depth_of_insert.
  assert (Hsub : 0 < depth_of st g ≤ GoInt.max_int →
                 GoInt.sub (depth_of st g) 1 = depth_of st g - 1).
  { intros [? ?]. unfold GoInt.sub. apply wrap_in_range.
    int_range. }
  destruct (Z.ltb_spec (GoInt.sub (depth_of st g) 1) 0) as [Hneg|Hpos].
  - cbn [currentDepth_d entryTime_t sink]. eexists. split; [reflexivity|].
    rewrite depth_of_insert. split_and!; try done.
    + intros g' Hg. unfold depth_of. rewrite Hd. cbn.
      by rewrite !lookup_insert_ne.
    + intros Hr. rewrite (Hsub Hr) in Hneg. lia.
  - eexists. split; [reflexivity|]. rewrite depth_of_insert.
    split_and!; try done.
    + intros g' Hg. by apply depth_of_insert_ne.
    + intros H0. rewrite H0 in Hpos. by vm_compute in Hpos.
    + intros Hr. by rewrite (Hsub Hr).
Qed.

(** *** Enter and exit on nested calls *)

Lemma enter_nested o env s st dm lg :
  DisableNesting o = false →
  CustomLogger o = Some lg →
  currentDepth_d st = Some dm →
  (EnableInstrumentation o = true → is_Some (entryTime_t st)) →
  0 ≤ depth_of st (GID env) * SpacesPerIndent o ≤ GoInt.max_int →
  ∃ st',
    _enter Sprintf o env s st = Ok (exit_closure o) st'
    ∧ currentDepth_d st'
      = Some (<[GID env := GoInt.add (depth_of st (GID env)) 1]> dm)
    ∧ entryTime_t st'
      = (if EnableInstrumentation o
         then insert (_getname Sprintf env s) (Now env) <$> entryTime_t st
         else entryTime_t st)
    ∧ sink st'
      = sink st ++ [(lg, indent_at o (depth_of st (GID env))
                           +:+ EnterMessage o +:+ _getname Sprintf env s
                           +:+ newline)].
Proof.
  intros Hn Hl Hd Ht Hr.
  unfold _enter, defer, bind, when, set_entry, ret.
  destruct (EnableInstrumentation o) eqn:Hi.
  - destruct (Ht eq_refl) as [tm Htm]. rewrite Htm.
    rewrite spacify_nesting; [|done|done].
    unfold Logger_write. rewrite Hl.
    unfold _incrementDepth, when, bind, get, set_depth, _getGID.
    rewrite Hn. cbn [negb currentDepth_d entryTime_t sink]. rewrite Hd.
    eexists. split; [reflexivity|]. cbn [currentDepth_d entryTime_t sink].
    split_and!; try done.
    all: by rewrite !(depth_of_mk st).
  - rewrite spacify_nesting; [|done|done].
    unfold Logger_write. rewrite Hl.
    unfold _incrementDepth, when, bind, get, set_depth, _getGID.
    rewrite Hn. cbn [negb currentDepth_d entryTime_t sink]. rewrite Hd.
    eexists. split; [reflexivity|]. cbn [currentDepth_d entryTime_t sink].
    split_and!; try done.
    all: by rewrite !(depth_of_mk st).
Qed.

Lemma exit_nested o env st dm lg :
  DisableNesting o = false →
  CustomLogger o = Some lg →
  currentDepth_d st = Some dm →
  1 ≤ depth_of st (GID env) ≤ GoInt.max_int →
  0 ≤ (depth_of st (GID env) - 1) * SpacesPerIndent o ≤ GoInt.max_int →
  ∃ st',
    _exit Sprintf o env st = Ok tt st'
    ∧ currentDepth_d st' = Some (<[GID env := depth_of st (GID env) - 1]> dm)
    ∧ entryTime_t st'
      = (if EnableInstrumentation o
         then delete (exit_text Sprintf o env st) <$> entryTime_t st
         else entryTime_t st)
    ∧ sink st'
      = sink st ++ [(lg, indent_at o (depth_of st (GID env) - 1)
                           +:+ ExitMessage o +:+ exit_text Sprintf o env st
                           +:+ newline)].
Proof.
  intros Hn Hl Hd Hr Hs.
  unfold _exit, bind at 1.
  rewrite (decrementDepth_nested o env st dm Hn Hd Hr).
  unfold bind, get. rewrite spacify_nesting; [|done|by rewrite depth_of_insert].
  rewrite depth_of_insert. unfold Logger_write. rewrite Hl.
  unfold when, delete_entry, ret, exit_text.
  cbn [currentDepth_d entryTime_t sink]. rewrite entry_of_mk.
  destruct (EnableInstrumentation o); eexists; (split; [reflexivity|]); done.
Qed.

(** Strictly nested calls on one goroutine return and leave the depth of
    that goroutine where they found it. *)
Lemma run_calls_balanced o lg g c :
  DisableNesting o = false →
  CustomLogger o = Some lg →
  0 ≤ SpacesPerIndent o →
  on_goroutine g c →
  ∀ st,
    is_Some (currentDepth_d st) →
    (EnableInstrumentation o = true → is_Some (entryTime_t st)) →
    0 ≤ depth_of st g →
    depth_of st g + height c ≤ GoInt.max_int →
    (depth_of st g + height c) * SpacesPerIndent o ≤ GoInt.max_int →
    ∃ st',
      run_calls Sprintf (enter_closure o) c st = Ok tt st'
      ∧ is_Some (currentDepth_d st')
      ∧ (EnableInstrumentation o = true → is_Some (entryTime_t st'))
      ∧ depth_of st' g = depth_of st g.
Proof.
  intros Hn Hl Hsp.
  induction c as [|env_in s body IHb env_out next IHn];
    intros Hg st Hd Ht H0 Hh Hw.
  - exists st. by split.
  - destruct Hg as (Hg1 & Hg2 & Hgb & Hgn).
    destruct Hd as [dm Hd]. cbn [height] in Hh, Hw.
    assert (Hhb : 0 ≤ height body). { clear. induction body; cbn [height]; lia. }
    assert (Hhn : 0 ≤ height next). { clear. induction next; cbn [height]; lia. }
    set (d := depth_of st g) in *.
    assert (Hmul : ∀ k, 0 ≤ k ≤ Z.max (1 + height body) (height next) →
                        0 ≤ (d + k) * SpacesPerIndent o ≤ GoInt.max_int).
    { intros k Hk. split; [nia|].
      etrans; [|exact Hw]. apply Z.mul_le_mono_nonneg_r; lia. }
    destruct (enter_nested o env_in s st dm lg Hn Hl Hd Ht)
      as (st1 & He & Hd1 & Ht1 & Hk1).
    { rewrite Hg1. fold d. replace d with (d + 0) by lia. apply Hmul. lia. }
    rewrite Hg1 in Hd1. fold d in Hd1.
    assert (Hadd : GoInt.add d 1 = d + 1).
    { apply wrap_in_range. int_range. }
    rewrite Hadd in Hd1.
    assert (Hdep1 : depth_of st1 g = d + 1).
    { unfold depth_of. rewrite Hd1. cbn. by rewrite lookup_insert_eq. }
    destruct (IHb Hgb st1) as (st2 & Hb & [dm2 Hd2] & Ht2 & Hdep2).
    { by rewrite Hd1. }
    { intros Hi. rewrite Ht1, Hi. destruct (Ht Hi) as [tm ->]. by eexists. }
    { lia. }
    { rewrite Hdep1. lia. }
    { rewrite Hdep1. replace (d + 1 + height body) with (d + (1 + height body)) by lia.
      apply Hmul. lia. }
    rewrite Hdep1 in Hdep2.
    destruct (exit_nested o env_out st2 dm2 lg Hn Hl Hd2)
      as (st3 & Hx & Hd3 & Ht3 & Hk3).
    { rewrite Hg2, Hdep2. lia. }
    { rewrite Hg2, Hdep2. replace (d + 1 - 1) with (d + 0) by lia. apply Hmul. lia. }
    rewrite Hg2, Hdep2 in Hd3.
    assert (Hdep3 : depth_of st3 g = d).
    { unfold depth_of. rewrite Hd3. cbn. rewrite lookup_insert_eq. cbn. lia. }
    destruct (IHn Hgn st3) as (st4 & Hnx & Hd4 & Ht4 & Hdep4).
    { by rewrite Hd3. }
    { intros Hi. rewrite Ht3, Hi. destruct (Ht2 Hi) as [tm ->]. by eexists. }
    { lia. }
    { rewrite Hdep3. lia. }
    { rewrite Hdep3. apply Hmul. lia. }
    exists st4. split_and!; try done; [|lia].
    cbn [run_calls call_enter]. unfold bind at 1. rewrite He.
    unfold bind at 1. rewrite Hb. cbn [call_exit].
    unfold bind at 1. by rewrite Hx.
Qed.

(** C6.  On one goroutine, for a call with strictly nested calls in its
    body: the enter line is printed at the depth [d] found before the call
    and the depth is [d + 1] once enter has returned; the body runs and
    leaves the depth at [d + 1]; the exit first lowers the depth and then
    prints its line at depth [d], with the same depth value and indent as
    the enter line. *)
Theorem C6_enter_and_exit_share_indent o lg g env_in s body env_out st :
  DisableNesting o = false →
  CustomLogger o = Some lg →
  0 ≤ SpacesPerIndent o →
  on_goroutine g (Call env_in s body env_out Done) →
  is_Some (currentDepth_d st) →
  (EnableInstrumentation o = true → is_Some (entryTime_t st)) →
  0 ≤ depth_of st g →
  depth_of st g + (1 + height body) ≤ GoInt.max_int →
  (depth_of st g + (1 + height body)) * SpacesPerIndent o ≤ GoInt.max_int →
  ∃ x st1 st2 st3,
    call_enter Sprintf (enter_closure o) env_in s st = Ok x st1
    ∧ sink st1
      = sink st ++ [(lg, indent_at o (depth_of st g) +:+ EnterMessage o
                           +:+ _getname Sprintf env_in s +:+ newline)]
    ∧ depth_of st1 g = depth_of st g + 1
    ∧ run_calls Sprintf (enter_closure o) body st1 = Ok tt st2
    ∧ depth_of st2 g = depth_of st g + 1
    ∧ call_exit Sprintf x env_out st2 = Ok tt st3
    ∧ sink st3
      = sink st2 ++ [(lg, indent_at o (depth_of st g) +:+ ExitMessage o
                            +:+ exit_text Sprintf o env_out st2 +:+ newline)]
    ∧ depth_of st3 g = depth_of st g.
Proof.
  intros Hn Hl Hsp (Hg1 & Hg2 & Hgb & _) [dm Hd] Ht H0 Hh Hw.
  assert (Hhb : 0 ≤ height body). { clear. induction body; cbn [height]; lia. }
  set (d := depth_of st g) in *.
  assert (Hmul : ∀ k, 0 ≤ k ≤ 1 + height body →
                      0 ≤ (d + k) * SpacesPerIndent o ≤ GoInt.max_int).
  { intros k Hk. split; [nia|].
    etrans; [|exact Hw]. apply Z.mul_le_mono_nonneg_r; lia. }
  destruct (enter_nested o env_in s st dm lg Hn Hl Hd Ht)
    as (st1 & He & Hd1 & Ht1 & Hk1).
  { rewrite Hg1. fold d. replace d with (d + 0) by lia. apply Hmul. lia. }
  rewrite Hg1 in Hd1, Hk1. fold d in Hd1, Hk1.
  assert (Hadd : GoInt.add d 1 = d + 1).
  { apply wrap_in_range. int_range. }
  rewrite Hadd in Hd1.
  assert (Hdep1 : depth_of st1 g = d + 1).
  { unfold depth_of. rewrite Hd1. cbn. by rewrite lookup_insert_eq. }
  destruct (run_calls_balanced o lg g body Hn Hl Hsp Hgb st1)
    as (st2 & Hb & [dm2 Hd2] & Ht2 & Hdep2).
  { by rewrite Hd1. }
  { intros Hi. rewrite Ht1, Hi. destruct (Ht Hi) as [tm ->]. by eexists. }
  { lia. }
  { rewrite Hdep1. lia. }
  { rewrite Hdep1. replace (d + 1 + height body) with (d + (1 + height body)) by lia.
    apply Hmul. lia. }
  rewrite Hdep1 in Hdep2.
  destruct (exit_nested o env_out st2 dm2 lg Hn Hl Hd2)
    as (st3 & Hx & Hd3 & Ht3 & Hk3).
  { rewrite Hg2, Hdep2. lia. }
  { rewrite Hg2, Hdep2. replace (d + 1 - 1) with (d + 0) by lia. apply Hmul. lia. }
  rewrite Hg2, Hdep2 in Hd3, Hk3.
  replace (d + 1 - 1) with d in Hd3, Hk3 by lia.
  exists (exit_closure o), st1, st2, st3. cbn [call_enter call_exit].
  split_and!; try done.
  unfold depth_of. rewrite Hd3. cbn. by rewrite lookup_insert_eq.
Qed.

(** *** Tracing or nesting disabled *)

Lemma returned_noops (returned : list ExitFn) k x :
  Forall (λ y, y = exit_noop) returned → returned !! k = Some x → x = exit_noop.
Proof. intros Hall Hk. by eapply (Forall_lookup_1 _ _ _ _ Hall Hk). Qed.

Lemma run_events_noop evs :
  ∀ returned st,
    Forall (λ y, y = exit_noop) returned →
    run_events Sprintf enter_noop returned evs st = Ok tt st.
Proof.
  induction evs as [|[env s|env k] evs IH]; intros returned st Hall; [done|..].
  - cbn [run_events call_enter]. unfold bind, ret. apply IH.
    apply Forall_app. split; [done|]. by constructor.
  - cbn [run_events]. unfold bind.
    destruct (returned !! k) as [x|] eqn:Hk.
    + rewrite (returned_noops _ _ _ Hall Hk). cbn. by apply IH.
    + cbn. by apply IH.
Qed.

(** C8.  With [DisableTracing] set, [New] returns the no-op enter function
    and leaves the package state as it was; every sequence of enter and
    exit calls on that tracer returns and leaves the state (both maps and
    what the loggers received) unchanged. *)
Theorem C8_disabled_tracing_is_noop opts st :
  DisableTracing opts = true →
  New (Some opts) st = Ok enter_noop st
  ∧ ∀ evs st', run_events Sprintf enter_noop [] evs st' = Ok tt st'.
Proof.
  intros Hd. split.
  - unfold New. cbn [from_option id]. by rewrite Hd.
  - intros evs st'. by apply run_events_noop.
Qed.

(** C10.  With [DisableNesting] set, whatever [DisableDepthValue] is,
    [_spacify] yields the empty text: an enter line is the enter message
    followed by the label, and an exit line is the exit message followed by
    the label (and the elapsed time when instrumentation is enabled). *)
Theorem C10_nesting_disabled_drops_depth_prefix opts st0 :
  DisableTracing opts = false →
  DisableNesting opts = true →
  ∃ o lg st1,
    New (Some opts) st0 = Ok (enter_closure o) st1
    ∧ DisableDepthValue o = DisableDepthValue opts
    ∧ (∀ env st, _spacify o env st = Ok "" st)
    ∧ (∀ env s st,
         (EnableInstrumentation o = true → is_Some (entryTime_t st)) →
         ∃ st', _enter Sprintf o env s st = Ok (exit_closure o) st'
                ∧ sink st' = sink st ++ [(lg, EnterMessage o
                                 +:+ _getname Sprintf env s +:+ newline)])
    ∧ (∀ env st,
         ∃ st', _exit Sprintf o env st = Ok tt st'
                ∧ sink st' = sink st ++ [(lg, ExitMessage o
                                 +:+ exit_text Sprintf o env st +:+ newline)]).
Proof.
  intros Hd Hn.
  set (o := resolve_options opts).
  assert (Hno : DisableNesting o = true) by done.
  assert (Hlg : ∃ lg, CustomLogger o = Some lg).
  { unfold o, resolve_options. cbn. destruct (CustomLogger opts); by eexists. }
  destruct Hlg as [lg Hlg].
  exists o, lg. eexists. split_and!.
  - unfold New. cbn [from_option id]. rewrite Hd. fold o. unfold bind, ret. reflexivity.
  - done.
  - intros env st. by apply spacify_no_nesting.
  - intros env s st Ht.
    unfold _enter, defer, bind, when, set_entry, ret, _incrementDepth.
    rewrite Hno. cbn [negb]. unfold when, ret.
    destruct (EnableInstrumentation o) eqn:Hi.
    + destruct (Ht eq_refl) as [tm Htm]. rewrite Htm.
      rewrite spacify_no_nesting by done.
      unfold Logger_write. rewrite Hlg. eexists. split; [reflexivity|]. done.
    + rewrite spacify_no_nesting by done.
      unfold Logger_write. rewrite Hlg. eexists. split; [reflexivity|]. done.
  - intros env st.
    unfold _exit, bind, _decrementDepth, when, get, ret, delete_entry, exit_text.
    rewrite Hno. cbn [negb]. rewrite spacify_no_nesting by done.
    unfold Logger_write. rewrite Hlg.
    destruct (EnableInstrumentation o); eexists; (split; [reflexivity|]); done.
Qed.

(** *** Package-level state *)

(** The deferred increment runs whether the body of enter returns or
    panics. *)
Lemma enter_raises_depth o env s st dm :
  DisableNesting o = false →
  currentDepth_d st = Some dm →
  currentDepth_d (final_state (_enter Sprintf o env s st))
  = Some (<[GID env := GoInt.add (depth_of st (GID env)) 1]> dm).
Proof.
  intros Hn Hd. unfold _enter. rewrite final_defer.
  match goal with |- context [final_state (?b st)] => set (body := b) end.
  assert (Hb : keeps currentDepth_d body).
  { unfold body. repeat (apply keeps_bind; [|intros ?]);
      auto with frame. }
  specialize (Hb st). rewrite Hd in Hb.
  set (st1 := final_state (body st)) in *.
  unfold _incrementDepth, when, bind, get, set_depth, _getGID.
  rewrite Hn. cbn [negb]. rewrite Hb. cbn [final_state currentDepth_d].
  unfold depth_of. by rewrite Hb, Hd.
Qed.

Lemma enter_records_start o env s st tm :
  EnableInstrumentation o = true →
  entryTime_t st = Some tm →
  entryTime_t (final_state (_enter Sprintf o env s st))
  = Some (<[_getname Sprintf env s := Now env]> tm).
Proof.
  intros Hi Ht. unfold _enter. rewrite final_defer, times_incrementDepth.
  cbn zeta. rewrite Hi. unfold when, bind at 1, set_entry. rewrite Ht.
  match goal with |- context [final_state (?b ?st1)] =>
    assert (Hb : keeps entryTime_t b) end.
  { repeat (apply keeps_bind; [|intros ?]);
      auto with frame. }
  by rewrite Hb.
Qed.

(** C5 (amended).  The depth map and the timing table belong to the
    package, not to a tracer: after an enter through a tracer with options
    [oA], the depth of that goroutine is one higher for every tracer, so a
    tracer with any other options [oB] renders its indent at the raised
    depth, and the start time recorded under the label is the one every
    tracer finds there. *)
Theorem C5_state_is_shared_by_all_tracers oA oB env s st dm :
  DisableNesting oA = false →
  currentDepth_d st = Some dm →
  let st' := final_state (_enter Sprintf oA env s st) in
  let d' := GoInt.add (depth_of st (GID env)) 1 in
  depth_of st' (GID env) = d'
  ∧ (DisableNesting oB = false →
     0 ≤ d' * SpacesPerIndent oB ≤ GoInt.max_int →
     _spacify oB env st' = Ok (indent_at oB d') st')
  ∧ (EnableInstrumentation oA = true → is_Some (entryTime_t st) →
     timing_entry st' (_getname Sprintf env s) = Some (Now env)
     ∧ entry_of st' (_getname Sprintf env s) = Now env).
Proof.
  intros Hn Hd st' d'.
  assert (Hdep : depth_of st' (GID env) = d').
  { unfold depth_of at 1. unfold st'.
    rewrite (enter_raises_depth oA env s st dm Hn Hd). cbn.
    by rewrite lookup_insert_eq. }
  split_and!; [done|..].
  - intros HnB Hr. rewrite <- Hdep in *. by apply spacify_nesting.
  - intros Hi [tm Ht]. unfold timing_entry, entry_of, st'.
    rewrite (enter_records_start oA env s st tm Hi Ht). cbn.
    by rewrite lookup_insert_eq.
Qed.

(** *** The timing table *)

Lemma exit_text_not_label o env st :
  EnableInstrumentation o = true →
  exit_text Sprintf o env st ≠ _getname Sprintf env [].
Proof.
  intros Hi. unfold exit_text. rewrite Hi. intros H.
  by apply append_longer in H.
Qed.

(** Whatever the options and the state, and whether it returns or panics,
    an exit leaves in place the entry under the label it looked up: the key
    it deletes carries the elapsed-time suffix. *)
Lemma exit_keeps_looked_up_entry o env st :
  timing_entry (final_state (_exit Sprintf o env st)) (_getname Sprintf env [])
  = timing_entry st (_getname Sprintf env []).
Proof.
  unfold _exit, bind at 1.
  pose proof (decrementDepth_times o env st) as Hdec.
  destruct (_decrementDepth o env st) as [[] st1|msg st1];
    cbn [final_state] in Hdec;
    [|unfold timing_entry; cbn [final_state]; by rewrite Hdec].
  unfold bind at 1, get. unfold bind at 1.
  pose proof (spacify_reads o env st1) as Hsp.
  destruct (_spacify o env st1) as [spaces st2|msg st2];
    cbn [final_state] in Hsp; subst st2;
    [|unfold timing_entry; cbn [final_state]; by rewrite Hdec].
  unfold bind, Logger_write.
  destruct (CustomLogger o) as [lg|];
    [|unfold timing_entry; cbn [final_state]; by rewrite Hdec].
  unfold when, delete_entry, ret.
  destruct (EnableInstrumentation o) eqn:Hi;
    unfold timing_entry; cbn [final_state entryTime_t]; rewrite Hdec; [|done].
  destruct (entryTime_t st) as [tm|]; [|done]. cbn.
  apply lookup_delete_ne. intros H. by apply append_longer in H.
Qed.

Lemma since_zero_saturates now :
  Time.maxDuration ≤ now → Time.Since now Time.zero = Time.maxDuration.
Proof.
  intros H. unfold Time.Since, Time.Sub, Time.zero, Time.minDuration,
    Time.maxDuration in *.
  rewrite Z.sub_0_r.
  destruct (Z.ltb_spec now (- 2 ^ 63)); [lia|].
  destruct (Z.ltb_spec (2 ^ 63 - 1) now); [done | lia].
Qed.

(** An exit that finds no start time under its label measures from the
    zero time, which saturates for every clock reading from year 293 on. *)
Lemma exit_text_on_miss o env st :
  EnableInstrumentation o = true →
  timing_entry st (_getname Sprintf env []) = None →
  Time.maxDuration ≤ Now env →
  exit_text Sprintf o env st
  = _getname Sprintf env [] +:+ " ... in 2562047h47m16.854775807s".
Proof.
  intros Hi Hm Hnow. unfold exit_text. rewrite Hi.
  assert (He : entry_of st (_getname Sprintf env []) = Time.zero).
  { unfold entry_of. unfold timing_entry in Hm.
    destruct (entryTime_t st) as [tm|]; [|done].
    change (tm !! _getname Sprintf env [] = None) in Hm. by rewrite Hm. }
  rewrite He, since_zero_saturates by done.
  reflexivity.
Qed.

(** *** The goroutine id *)

Lemma pretty_N_char_digit d :
  (d < 10)%N →
  Regexp.is_digit (pretty_N_char d) = true
  ∧ (N_of_ascii (pretty_N_char d) - 48 = d)%N.
Proof.
  intros Hd.
  assert (d = 0 ∨ d = 1 ∨ d = 2 ∨ d = 3 ∨ d = 4 ∨ d = 5 ∨ d = 6 ∨ d = 7
          ∨ d = 8 ∨ d = 9)%N as Hc by lia.
  repeat destruct Hc as [->|Hc]; try subst d; by vm_compute.
Qed.

Lemma all_digits_pretty_go x :
  ∀ s, all_digits s = true → all_digits (pretty_N_go x s) = true.
Proof.
  induction (N.lt_wf_0 x) as [x _ IH]. intros s Hs.
  destruct (decide (x = 0)%N) as [->|Hx]; [by rewrite pretty_N_go_0|].
  rewrite pretty_N_go_step by lia. apply IH.
  - apply N.div_lt; lia.
  - cbn [all_digits]. rewrite Hs, andb_true_r.
    apply pretty_N_char_digit, N.mod_lt. lia.
Qed.

Lemma all_digits_pretty (n : N) : all_digits (pretty n) = true.
Proof.
  unfold pretty, pretty_N. case_decide; [done|].
  by apply all_digits_pretty_go.
Qed.

Lemma ParseUint_loop_digit c r n :
  Regexp.is_digit c = true →
  (n * 10 + (N_of_ascii c - 48) ≤ Strconv.maxUint64)%N →
  Strconv.ParseUint_loop (String c r) n
  = Strconv.ParseUint_loop r (n * 10 + (N_of_ascii c - 48)).
Proof.
  intros Hc Hn. cbn [Strconv.ParseUint_loop]. rewrite Hc.
  destruct (N.leb_spec Strconv.cutoff n) as [Hcut|_].
  - exfalso. unfold Strconv.cutoff, Strconv.maxUint64 in *.
    change ((2 ^ 64 - 1) `div` 10 + 1)%N with 1844674407370955162%N in Hcut.
    change (2 ^ 64 - 1)%N with 18446744073709551615%N in Hn. lia.
  - cbn zeta. by destruct (N.ltb_spec Strconv.maxUint64
                             (n * 10 + (N_of_ascii c - 48))); [lia|].
Qed.

Lemma ParseUint_loop_pretty_go x :
  ∀ s,
    (0 < x ≤ Strconv.maxUint64)%N →
    Strconv.ParseUint_loop (pretty_N_go x s) 0 = Strconv.ParseUint_loop s x.
Proof.
  induction (N.lt_wf_0 x) as [x _ IH]. intros s Hx.
  rewrite pretty_N_go_step by lia.
  assert (Hm : (x `mod` 10 < 10)%N) by (apply N.mod_lt; lia).
  destruct (pretty_N_char_digit _ Hm) as [Hdig Hval].
  pose proof (N.div_mod x 10 ltac:(lia)) as Hdm.
  destruct (decide (x `div` 10 = 0)%N) as [Hq|Hq].
  - rewrite Hq, pretty_N_go_0, ParseUint_loop_digit; rewrite ?Hval; try done.
    + f_equal. lia.
    + lia.
  - rewrite IH; [| apply N.div_lt; lia |].
    + rewrite ParseUint_loop_digit; rewrite ?Hval; try done.
      * f_equal. lia.
      * lia.
    + split; [lia|]. etrans; [|apply Hx]. apply N.Div0.div_le_upper_bound. lia.
Qed.

Lemma ParseUint_pretty (n : N) :
  (n ≤ Strconv.maxUint64)%N → Strconv.ParseUint (pretty n) = n.
Proof.
  intros Hn. unfold pretty, pretty_N. case_decide as H0; [by subst|].
  unfold Strconv.ParseUint.
  destruct (String.eqb_spec (pretty_N_go n "") "") as [He|_].
  - exfalso. pose proof (ParseUint_loop_pretty_go n "" ltac:(lia)) as Hp.
    rewrite He in Hp. cbn in Hp. lia.
  - rewrite ParseUint_loop_pretty_go by lia. done.
Qed.

Lemma is_digit_not_space c : Regexp.is_digit c = true → Ascii.eqb c " " = false.
Proof.
  destruct (Ascii.eqb_spec c " ") as [->|]; [by vm_compute | done].
Qed.

Lemma IndexByte_bound s c : -1 ≤ Bytes.IndexByte s c ≤ Z.of_nat (String.length s).
Proof.
  induction s as [|x s IH]; cbn [Bytes.IndexByte String.length]; [lia|].
  destruct (Ascii.eqb x c); [lia|].
  destruct (Z.ltb_spec (Bytes.IndexByte s c) 0); lia.
Qed.

Lemma slice_at_first_space a rest :
  all_digits a = true →
  Bytes.slice_to (a +:+ " " +:+ rest)
    (Bytes.IndexByte (a +:+ " " +:+ rest) " ") = Some a.
Proof.
  intros Ha.
  assert (Hi : Bytes.IndexByte (a +:+ " " +:+ rest) " "
               = Z.of_nat (String.length a)
             ∧ Bytes.take (String.length a) (a +:+ " " +:+ rest) = a).
  { induction a as [|x a IH]; [done|].
    cbn [all_digits] in Ha. apply andb_true_iff in Ha as [Hx Ha].
    destruct (IH Ha) as [IH1 IH2]. rewrite append_cons.
    cbn [Bytes.IndexByte Bytes.take String.length].
    rewrite (is_digit_not_space _ Hx), IH1, IH2.
    destruct (Z.ltb_spec (Z.of_nat (String.length a)) 0); [lia|].
    split; [lia | done]. }
  destruct Hi as [Hi Ht]. unfold Bytes.slice_to. rewrite Hi.
  pose proof (IndexByte_bound (a +:+ " " +:+ rest) " ") as Hb. rewrite Hi in Hb.
  destruct (Z.ltb_spec (Z.of_nat (String.length a)) 0); [lia|].
  destruct (Z.ltb_spec (Z.of_nat (String.length (a +:+ " " +:+ rest)))
              (Z.of_nat (String.length a))); [lia|].
  cbn [orb]. by rewrite Nat2Z.id, Ht.
Qed.

(** X1.  On the text the runtime writes, the word "goroutine", the id in
    decimal, a space and anything after it, [_getGID] returns the id, for
    every id a [uint64] holds. *)
Theorem getGID_reads_the_id (n : N) (rest : string) :
  (n ≤ Strconv.maxUint64)%N →
  _getGID_parse ("goroutine " +:+ pretty n +:+ " " +:+ rest) = Some n.
Proof.
  intros Hn. unfold _getGID_parse.
  change (Bytes.TrimPrefix ("goroutine " +:+ pretty n +:+ " " +:+ rest)
            "goroutine ") with (pretty n +:+ " " +:+ rest).
  rewrite slice_at_first_space by apply all_digits_pretty.
  by rewrite ParseUint_pretty.
Qed.

(** X2.  When the byte after the prefix is not a decimal digit and a space
    follows somewhere, [_getGID] returns 0: the parse error is dropped. *)
Theorem getGID_falls_back_to_zero (c : ascii) (r : string) :
  Regexp.is_digit c = false →
  0 ≤ Bytes.IndexByte (String c r) " " →
  _getGID_parse ("goroutine " +:+ String c r) = Some 0%N.
Proof.
  intros Hc Hi. unfold _getGID_parse.
  change (Bytes.TrimPrefix ("goroutine " +:+ String c r) "goroutine ")
    with (String c r).
  pose proof (IndexByte_bound (String c r) " ") as Hb.
  unfold Bytes.slice_to.
  destruct (Z.ltb_spec (Bytes.IndexByte (String c r) " ") 0); [lia|].
  destruct (Z.ltb_spec (Z.of_nat (String.length (String c r)))
              (Bytes.IndexByte (String c r) " ")); [lia|].
  cbn [orb]. f_equal.
  destruct (Z.to_nat (Bytes.IndexByte (String c r) " ")) as [|k]; [done|].
  cbn [Bytes.take]. unfold Strconv.ParseUint.
  cbn [String.eqb Strconv.ParseUint_loop]. by rewrite Hc.
Qed.

(** *** What [New] sets up *)

(** X3.  Unless tracing is disabled, [New] returns a closure whose options
    have a logger, non-empty enter and exit messages, and an indent width
    that is 0 exactly when nesting is disabled; what the caller did set is
    kept, and nothing is written to any logger. *)
Theorem New_fills_in_the_options opts st :
  DisableTracing opts = false →
  ∃ o st',
    New (Some opts) st = Ok (enter_closure o) st'
    ∧ sink st' = sink st
    ∧ is_Some (CustomLogger o)
    ∧ EnterMessage o ≠ "" ∧ ExitMessage o ≠ ""
    ∧ (DisableNesting o = true ↔ SpacesPerIndent o = 0)
    ∧ DisableNesting o = DisableNesting opts
    ∧ DisableDepthValue o = DisableDepthValue opts
    ∧ EnableInstrumentation o = EnableInstrumentation opts
    ∧ (∀ l, CustomLogger opts = Some l → CustomLogger o = Some l)
    ∧ (EnterMessage opts ≠ "" → EnterMessage o = EnterMessage opts)
    ∧ (ExitMessage opts ≠ "" → ExitMessage o = ExitMessage opts)
    ∧ (DisableNesting opts = false → SpacesPerIndent opts ≠ 0 →
       SpacesPerIndent o = SpacesPerIndent opts).
Proof.
  intros Hd. exists (resolve_options opts). eexists. split.
  { unfold New. cbn [from_option id]. rewrite Hd. unfold bind, ret. reflexivity. }
  cbn [sink]. unfold resolve_options.
  cbn [CustomLogger EnterMessage ExitMessage DisableNesting SpacesPerIndent
       DisableDepthValue EnableInstrumentation].
  split_and!; try done.
  - by destruct (CustomLogger opts).
  - by destruct (String.eqb_spec (EnterMessage opts) "").
  - by destruct (String.eqb_spec (ExitMessage opts) "").
  - destruct (DisableNesting opts); [done|].
    destruct (Z.eqb_spec (SpacesPerIndent opts) 0); split; try done.
  - by intros l ->.
  - by destruct (String.eqb_spec (EnterMessage opts) "").
  - by destruct (String.eqb_spec (ExitMessage opts) "").
  - intros ->. by destruct (Z.eqb_spec (SpacesPerIndent opts) 0).
Qed.

(** X4.  A call of [New] with nesting enabled starts the depth of every
    goroutine again at 0, whatever calls are open, and one with
    instrumentation enabled forgets every start time; a feature that is
    off leaves its map as it was, nil included. *)
Theorem New_starts_the_maps_afresh opts st :
  DisableTracing opts = false →
  let st' := final_state (New (Some opts) st) in
  (DisableNesting opts = false →
     is_Some (currentDepth_d st') ∧ ∀ g, depth_of st' g = 0)
  ∧ (DisableNesting opts = true → currentDepth_d st' = currentDepth_d st)
  ∧ (EnableInstrumentation opts = true →
     is_Some (entryTime_t st') ∧ ∀ label, timing_entry st' label = None)
  ∧ (EnableInstrumentation opts = false → entryTime_t st' = entryTime_t st).
Proof.
  intros Hd st'. unfold st', New. cbn [from_option id]. rewrite Hd.
  unfold bind, ret. cbn [final_state resolve_options DisableNesting
    EnableInstrumentation].
  split_and!; intros ->; by cbn.
Qed.

(** *** Frames: what enter and exit leave alone *)

Lemma keeps_get {X} (f : State → X) : keeps f get.
Proof. by intros st. Qed.

Lemma depths_delete_entry label : keeps currentDepth_d (delete_entry label).
Proof. by intros st. Qed.

Lemma sink_set_entry label v : keeps sink (set_entry label v).
Proof. intros st. unfold set_entry. by destruct (entryTime_t st). Qed.

Lemma sink_set_depth g v : keeps sink (set_depth g v).
Proof. intros st. unfold set_depth. by destruct (currentDepth_d st). Qed.

Lemma times_set_depth g v : keeps entryTime_t (set_depth g v).
Proof. intros st. unfold set_depth. by destruct (currentDepth_d st). Qed.

Lemma sink_incrementDepth o env : keeps sink (_incrementDepth o env).
Proof.
  unfold _incrementDepth. apply keeps_when, keeps_bind; [apply keeps_get|].
  intros st. apply sink_set_depth.
Qed.

(** The rest of [_exit], after the decrement, keeps the depth map. *)
Lemma exit_depths o env st :
  currentDepth_d (final_state (_exit Sprintf o env st))
  = currentDepth_d (final_state (_decrementDepth o env st)).
Proof.
  unfold _exit, bind at 1.
  destruct (_decrementDepth o env st) as [[] st1|msg st1]; [|done].
  cbn [final_state].
  match goal with |- currentDepth_d (final_state (?k st1)) = _ =>
    assert (Hk : keeps currentDepth_d k) end.
  { cbn zeta. repeat (apply keeps_bind; [|intros ?]);
      auto using keeps_get, depths_delete_entry with frame. }
  apply Hk.
Qed.

Lemma decrement_other_goroutine o env st g :
  g ≠ GID env →
  depth_of (final_state (_decrementDepth o env st)) g = depth_of st g.
Proof.
  intros Hg. unfold _decrementDepth, when, bind, get, set_depth, ret,
    Logger_Println, Logger_write, _getGID.
  destruct (DisableNesting o); cbn [negb]; [done|].
  destruct (currentDepth_d st) as [dm|] eqn:Hd; [|done].
  cbn [currentDepth_d entryTime_t sink].
  destruct (_ <? 0); cbn [final_state].
  - destruct (CustomLogger o); cbn [final_state currentDepth_d];
      unfold depth_of; rewrite Hd; cbn; by rewrite !lookup_insert_ne.
  - unfold depth_of; rewrite Hd; cbn; by rewrite lookup_insert_ne.
Qed.

Lemma enter_body_depths o env s :
  keeps currentDepth_d
    (let fname := _getname Sprintf env s in
     do _ <- when (EnableInstrumentation o) (set_entry fname (Now env));
     do spaces <- _spacify o env;
     do _ <- Logger_write (CustomLogger o)
               (spaces +:+ EnterMessage o +:+ fname +:+ newline);
     ret (exit_closure o)).
Proof.
  cbn zeta. repeat (apply keeps_bind; [|intros ?]); auto with frame.
Qed.

(** X5.  An enter or an exit on one goroutine leaves the depth of every
    other goroutine as it was, whatever the options and the state, and
    whether the call returns or panics. *)
Theorem other_goroutines_keep_their_depth o env s st g :
  g ≠ GID env →
  depth_of (final_state (_enter Sprintf o env s st)) g = depth_of st g
  ∧ depth_of (final_state (_exit Sprintf o env st)) g = depth_of st g.
Proof.
  intros Hg. split.
  - unfold _enter. rewrite final_defer.
    pose proof (enter_body_depths o env s st) as Hb. cbn zeta in Hb.
    set (st1 := final_state _) in *.
    assert (H1 : depth_of st1 g = depth_of st g)
      by (unfold depth_of; by rewrite Hb).
    rewrite <- H1.
    unfold _incrementDepth, when, bind, get, set_depth, ret, _getGID.
    destruct (DisableNesting o); cbn [negb]; [done|].
    destruct (currentDepth_d st1) as [dm|] eqn:Hd; [|done].
    cbn [final_state]. unfold depth_of at 1. cbn [currentDepth_d].
    unfold depth_of. rewrite Hd. cbn. by rewrite lookup_insert_ne.
  - unfold depth_of at 1. rewrite exit_depths.
    by apply decrement_other_goroutine.
Qed.

(** X6.  A tracer with nesting disabled never touches the depth map, and
    one without instrumentation never touches the timing table: enter and
    exit leave them as they were, nil included, in every outcome. *)
Theorem disabled_features_leave_their_map o env s st :
  (DisableNesting o = true →
     currentDepth_d (final_state (_enter Sprintf o env s st)) = currentDepth_d st
     ∧ currentDepth_d (final_state (_exit Sprintf o env st)) = currentDepth_d st)
  ∧ (EnableInstrumentation o = false →
     entryTime_t (final_state (_enter Sprintf o env s st)) = entryTime_t st
     ∧ entryTime_t (final_state (_exit Sprintf o env st)) = entryTime_t st).
Proof.
  split.
  - intros Hn. split.
    + unfold _enter. rewrite final_defer.
      pose proof (enter_body_depths o env s st) as Hb. cbn zeta in Hb.
      rewrite <- Hb. unfold _incrementDepth. by rewrite Hn.
    + rewrite exit_depths. unfold _decrementDepth. by rewrite Hn.
  - intros Hi. split.
    + unfold _enter. rewrite final_defer, times_incrementDepth, Hi.
      match goal with |- entryTime_t (final_state (?b st)) = _ =>
        assert (Hb : keeps entryTime_t b) end.
      { cbn zeta. unfold when.
        repeat (apply keeps_bind; [|intros ?]); auto with frame. }
      apply Hb.
    + unfold _exit, bind at 1.
      pose proof (decrementDepth_times o env st) as Hdec.
      destruct (_decrementDepth o env st) as [[] st1|msg st1];
        cbn [final_state] in *; [|done].
      rewrite <- Hdec, Hi.
      match goal with |- entryTime_t (final_state (?k st1)) = _ =>
        assert (Hk : keeps entryTime_t k) end.
      { cbn zeta. unfold when.
        repeat (apply keeps_bind; [|intros ?]);
          auto using keeps_get with frame. }
      apply Hk.
Qed.

(** *** Lines are only appended *)

Lemma appends_keeps {A} k lg (m : M A) : keeps sink m → appends k lg m.
Proof.
  intros Hm st. exists []. rewrite Hm, app_nil_r. split_and!; [done|cbn; lia|].
  intros p Hp. by apply elem_of_nil in Hp.
Qed.

Lemma appends_bind {A B} j k lg (m : M A) (f : A → M B) :
  appends j lg m → (∀ a, appends k lg (f a)) → appends (j + k) lg (bind m f).
Proof.
  intros Hm Hf st. unfold bind. destruct (Hm st) as (l1 & H1 & Hl1 & Hp1).
  destruct (m st) as [a st1|msg st1]; cbn [final_state] in *.
  - destruct (Hf a st1) as (l2 & H2 & Hl2 & Hp2). exists (l1 ++ l2).
    rewrite H2, H1, app_assoc, length_app. split_and!; [done|lia|].
    intros p [Hp|Hp]%elem_of_app; auto.
  - exists l1. split_and!; [done|lia|done].
Qed.

Lemma appends_defer {A} j k lg (f : M unit) (body : M A) :
  appends j lg body → appends k lg f → appends (j + k) lg (defer f body).
Proof.
  intros Hb Hf st. rewrite final_defer.
  destruct (Hb st) as (l1 & H1 & Hl1 & Hp1).
  destruct (Hf (final_state (body st))) as (l2 & H2 & Hl2 & Hp2).
  exists (l1 ++ l2). rewrite H2, H1, app_assoc, length_app.
  split_and!; [done|lia|]. intros p [Hp|Hp]%elem_of_app; auto.
Qed.

Lemma appends_Logger_write lg text : appends 1 lg (Logger_write lg text).
Proof.
  intros st. unfold Logger_write. destruct lg as [l|]; cbn [final_state sink].
  - exists [(l, text)]. split_and!; [done|cbn; lia|].
    by intros p ->%list_elem_of_singleton.
  - exists []. rewrite app_nil_r. split_and!; [done|cbn; lia|].
    intros p Hp. by apply elem_of_nil in Hp.
Qed.

Lemma appends_when k lg b (m : M unit) : appends k lg m → appends k lg (when b m).
Proof. intros Hm. destruct b; [done|]. by apply appends_keeps. Qed.

Lemma appends_decrementDepth o env :
  appends 1 (CustomLogger o) (_decrementDepth o env).
Proof.
  unfold _decrementDepth. apply appends_when.
  change 1%nat with (0 + (0 + (0 + (1 + 0))))%nat.
  apply appends_bind; [by apply appends_keeps|intros ?].
  apply appends_bind; [apply appends_keeps, sink_set_depth|intros ?].
  apply appends_bind; [by apply appends_keeps|intros ?].
  apply appends_when, appends_bind; [apply appends_Logger_write|intros ?].
  apply appends_keeps, sink_set_depth.
Qed.

(** X7.  Enter and exit never change or drop a line a logger has received:
    in every outcome they only append, enter at most one line and exit at
    most two, and only to the logger of their own options. *)
Theorem lines_are_only_appended o env s :
  appends 1 (CustomLogger o) (_enter Sprintf o env s)
  ∧ appends 2 (CustomLogger o) (_exit Sprintf o env).
Proof.
  split.
  - unfold _enter. change 1%nat with ((0 + (0 + (1 + 0))) + 0)%nat.
    apply appends_defer; [|apply appends_keeps, sink_incrementDepth].
    cbn zeta.
    apply appends_bind;
      [apply appends_when, appends_keeps, sink_set_entry|intros ?].
    apply appends_bind; [apply appends_keeps, spacify_keeps|intros ?].
    apply appends_bind; [apply appends_Logger_write|intros ?].
    by apply appends_keeps.
  - unfold _exit. change 2%nat with (1 + (0 + (0 + (1 + 0))))%nat.
    apply appends_bind; [apply appends_decrementDepth|intros ?].
    cbn zeta.
    apply appends_bind; [by apply appends_keeps|intros ?].
    apply appends_bind; [apply appends_keeps, spacify_keeps|intros ?].
    apply appends_bind; [apply appends_Logger_write|intros ?].
    by apply appends_when, appends_keeps.
Qed.

(** *** Exits without an open call, and the range of the depth *)

Lemma decrementDepth_at_zero o env st dm lg :
  DisableNesting o = false →
  CustomLogger o = Some lg →
  currentDepth_d st = Some dm →
  depth_of st (GID env) = 0 →
  _decrementDepth o env st
  = Ok tt (mkState (Some (<[GID env := 0]> (<[GID env := -1]> dm)))
             (entryTime_t st)
             (sink st ++ [(lg, depth_warning +:+ newline)])).
Proof.
  intros Hn Hl Hd H0.
  unfold _decrementDepth, _getGID, when, bind, get, set_depth, Logger_Println,
    Logger_write.
  rewrite Hn, Hl. cbn [negb]. rewrite Hd, H0.
  cbn [currentDepth_d entryTime_t sink]. rewrite depth_of_insert.
  change (GoInt.sub 0 1) with (-1). by cbn.
Qed.

(** X8.  An exit on a goroutine whose depth is 0 (no call is open, or
    [New] has started the map afresh) returns: it writes the warning, then
    the exit line at depth 0, and leaves the depth at 0, whatever the
    indent width is. *)
Theorem exit_without_open_call o env st dm lg :
  DisableNesting o = false →
  CustomLogger o = Some lg →
  currentDepth_d st = Some dm →
  depth_of st (GID env) = 0 →
  ∃ st',
    _exit Sprintf o env st = Ok tt st'
    ∧ sink st'
      = sink st ++ [(lg, depth_warning +:+ newline);
                    (lg, indent_at o 0 +:+ ExitMessage o
                           +:+ exit_text Sprintf o env st +:+ newline)]
    ∧ depth_of st' (GID env) = 0.
Proof.
  intros Hn Hl Hd H0. unfold _exit, bind at 1.
  rewrite (decrementDepth_at_zero o env st dm lg Hn Hl Hd H0).
  unfold bind, get.
  rewrite spacify_nesting; [|done|rewrite depth_of_insert; int_range].
  rewrite depth_of_insert. unfold Logger_write. rewrite Hl.
  unfold when, delete_entry, ret, exit_text.
  cbn [currentDepth_d entryTime_t sink]. rewrite entry_of_mk.
  destruct (EnableInstrumentation o); eexists;
    (split; [reflexivity|]); cbn [sink];
    rewrite <- app_assoc; (split; [done|]);
    unfold depth_of; cbn; by rewrite lookup_insert_eq.
Qed.

Lemma final_bind {A B} (m : M A) (k : A → M B) st :
  final_state (bind m k st)
  = match m st with
    | Ok a st' => final_state (k a st')
    | Panic _ st' => st'
    end.
Proof. unfold bind. by destruct (m st). Qed.

Lemma depths_within_mono k k' st :
  k ≤ k' → depths_within k st → depths_within k' st.
Proof.
  intros Hk [Hs Hd]. split; [done|]. intros g. specialize (Hd g). lia.
Qed.

Lemma enter_depths_within o env s st k :
  DisableNesting o = false →
  k < GoInt.max_int →
  depths_within k st →
  depths_within (k + 1) (final_state (_enter Sprintf o env s st)).
Proof.
  intros Hn Hk [[dm Hd] Hr].
  pose proof (enter_raises_depth o env s st dm Hn Hd) as He.
  split; [by rewrite He|]. intros g. unfold depth_of at 1 2. rewrite He.
  cbn. destruct (decide (g = GID env)) as [->|Hg].
  - rewrite lookup_insert_eq. cbn. specialize (Hr (GID env)).
    unfold GoInt.add. rewrite wrap_in_range by int_range. lia.
  - rewrite lookup_insert_ne by done. specialize (Hr g).
    unfold depth_of in Hr. rewrite Hd in Hr. lia.
Qed.

Lemma depth_of_insert_dec dm t k g g' v :
  depth_of (mkState (Some (<[g:=v]> dm)) t k) g'
  = if decide (g' = g) then v else default 0 (dm !! g').
Proof.
  unfold depth_of. cbn [currentDepth_d]. case_decide as Hg.
  - subst. by rewrite lookup_insert_eq.
  - by rewrite lookup_insert_ne.
Qed.

Lemma decrement_depths_within o env st k lg :
  DisableNesting o = false →
  CustomLogger o = Some lg →
  0 ≤ k ≤ GoInt.max_int →
  depths_within k st →
  depths_within k (final_state (_decrementDepth o env st)).
Proof.
  intros Hn Hl Hk [[dm Hd] Hr].
  assert (Hdm : ∀ g, 0 ≤ default 0 (dm !! g) ≤ k).
  { intros g. specialize (Hr g). unfold depth_of in Hr. by rewrite Hd in Hr. }
  unfold _decrementDepth, _getGID, when, bind, get, set_depth, Logger_Println,
    Logger_write, ret.
  rewrite Hn, Hl. cbn [negb]. rewrite Hd.
  cbn [currentDepth_d entryTime_t sink]. rewrite depth_of_insert.
  pose proof (Hr (GID env)) as Hg.
  assert (Hsub : GoInt.sub (depth_of st (GID env)) 1
                 = depth_of st (GID env) - 1).
  { unfold GoInt.sub. apply wrap_in_range. int_range. }
  rewrite Hsub.
  destruct (Z.ltb_spec (depth_of st (GID env) - 1) 0);
    cbn [final_state currentDepth_d entryTime_t sink];
    (split; [by eexists|]); intros g.
  - rewrite !depth_of_insert_dec.
    case_decide; [lia|]. rewrite lookup_insert_ne by done. apply Hdm.
  - rewrite !depth_of_insert_dec. case_decide; [lia|]. apply Hdm.
Qed.

Lemma exit_depths_within o env st k lg :
  DisableNesting o = false →
  CustomLogger o = Some lg →
  0 ≤ k ≤ GoInt.max_int →
  depths_within k st →
  depths_within k (final_state (_exit Sprintf o env st)).
Proof.
  intros Hn Hl Hk Hw.
  destruct (decrement_depths_within o env st k lg Hn Hl Hk Hw) as [Hs Hr].
  pose proof (exit_depths o env st) as He.
  split; [by rewrite He|]. intros g. unfold depth_of. rewrite He. apply Hr.
Qed.

Lemma count_enters_nonneg evs : 0 ≤ count_enters evs.
Proof. induction evs as [|[]]; cbn [count_enters]; lia. Qed.

Lemma run_events_depths_within o lg evs :
  DisableNesting o = false →
  CustomLogger o = Some lg →
  ∀ returned k st,
    Forall (λ x, x = exit_closure o) returned →
    0 ≤ k →
    k + count_enters evs ≤ GoInt.max_int →
    depths_within k st →
    depths_within (k + count_enters evs)
      (final_state (run_events Sprintf (enter_closure o) returned evs st)).
Proof.
  intros Hn Hl.
  induction evs as [|[env s|env i] evs IH]; intros returned k st Hret Hk Hb Hw;
    cbn [count_enters] in *.
  - cbn. by rewrite Z.add_0_r.
  - pose proof (count_enters_nonneg evs) as Hc.
    cbn [run_events call_enter]. rewrite final_bind.
    pose proof (enter_depths_within o env s st k Hn ltac:(lia) Hw) as He.
    assert (Hx : ∀ x st', _enter Sprintf o env s st = Ok x st' →
                          x = exit_closure o).
    { intros x st'. unfold _enter, defer, bind, ret.
      repeat case_match; congruence. }
    destruct (_enter Sprintf o env s st) as [x st'|msg st'] eqn:Hrun;
      cbn [final_state] in He.
    + replace (k + (1 + count_enters evs)) with (k + 1 + count_enters evs)
        by lia.
      apply IH; [|lia|lia|done].
      apply Forall_app. split; [done|]. constructor; [|done]. by eapply Hx.
    + eapply depths_within_mono; [|exact He]. lia.
  - pose proof (count_enters_nonneg evs) as Hc.
    cbn [run_events]. rewrite final_bind.
    destruct (returned !! i) as [x|] eqn:Hi.
    + pose proof (Forall_lookup_1 _ _ _ _ Hret Hi) as ->. cbn [call_exit].
      pose proof (exit_depths_within o env st k lg Hn Hl ltac:(lia) Hw) as He.
      destruct (_exit Sprintf o env st) as [[] st'|msg st'];
        cbn [final_state] in He.
      * by apply IH.
      * eapply depths_within_mono; [|exact He]. lia.
    + cbn. by apply IH.
Qed.

(** X9.  Starting where every depth is between 0 and [k], after any
    sequence of enter and exit calls on a tracer with nesting enabled, in
    any order and on any goroutines, every depth is between 0 and [k] plus
    the number of enter calls made; this also holds where the sequence
    stops with a panic. *)
Theorem depth_stays_within_the_enters o lg evs k st :
  DisableNesting o = false →
  CustomLogger o = Some lg →
  0 ≤ k →
  k + count_enters evs ≤ GoInt.max_int →
  depths_within k st →
  ∀ g,
    0 ≤ depth_of
          (final_state (run_events Sprintf (enter_closure o) [] evs st)) g
      ≤ k + count_enters evs.
Proof.
  intros Hn Hl Hk Hb Hw g.
  by apply (run_events_depths_within o lg evs Hn Hl [] k st).
Qed.

(** *** Whole programs, and an indent width below zero *)

Lemma height_nonneg c : 0 ≤ height c.
Proof. induction c; cbn [height]; lia. Qed.

Lemma run_calls_lines o lg g c :
  DisableNesting o = false →
  CustomLogger o = Some lg →
  0 ≤ SpacesPerIndent o →
  on_goroutine g c →
  ∀ st,
    is_Some (currentDepth_d st) →
    (EnableInstrumentation o = true → is_Some (entryTime_t st)) →
    0 ≤ depth_of st g →
    depth_of st g + height c ≤ GoInt.max_int →
    (depth_of st g + height c) * SpacesPerIndent o ≤ GoInt.max_int →
    ∃ st' l,
      run_calls Sprintf (enter_closure o) c st = Ok tt st'
      ∧ is_Some (currentDepth_d st')
      ∧ (EnableInstrumentation o = true → is_Some (entryTime_t st'))
      ∧ depth_of st' g = depth_of st g
      ∧ sink st' = sink st ++ l
      ∧ length l = (2 * calls c)%nat
      ∧ ∀ p, p ∈ l → p.1 = lg.
Proof.
  intros Hn Hl Hsp.
  induction c as [|env_in s body IHb env_out next IHn];
    intros Hg st Hd Ht H0 Hh Hw.
  - exists st, []. rewrite app_nil_r. split_and!; try done.
    intros p Hp. by apply elem_of_nil in Hp.
  - destruct Hg as (Hg1 & Hg2 & Hgb & Hgn).
    destruct Hd as [dm Hd]. cbn [height] in Hh, Hw.
    pose proof (height_nonneg body) as Hhb.
    pose proof (height_nonneg next) as Hhn.
    set (d := depth_of st g) in *.
    assert (Hmul : ∀ k, 0 ≤ k ≤ Z.max (1 + height body) (height next) →
                        0 ≤ (d + k) * SpacesPerIndent o ≤ GoInt.max_int).
    { intros k Hk. split; [nia|].
      etrans; [|exact Hw]. apply Z.mul_le_mono_nonneg_r; lia. }
    destruct (enter_nested o env_in s st dm lg Hn Hl Hd Ht)
      as (st1 & He & Hd1 & Ht1 & Hk1).
    { rewrite Hg1. fold d. replace d with (d + 0) by lia. apply Hmul. lia. }
    rewrite Hg1 in Hd1. fold d in Hd1.
    assert (Hadd : GoInt.add d 1 = d + 1).
    { apply wrap_in_range. int_range. }
    rewrite Hadd in Hd1.
    assert (Hdep1 : depth_of st1 g = d + 1).
    { unfold depth_of. rewrite Hd1. cbn. by rewrite lookup_insert_eq. }
    destruct (IHb Hgb st1)
      as (st2 & l2 & Hb & [dm2 Hd2] & Ht2 & Hdep2 & Hk2 & Hl2 & Hp2).
    { by rewrite Hd1. }
    { intros Hi. rewrite Ht1, Hi. destruct (Ht Hi) as [tm ->]. by eexists. }
    { lia. }
    { rewrite Hdep1. lia. }
    { rewrite Hdep1.
      replace (d + 1 + height body) with (d + (1 + height body)) by lia.
      apply Hmul. lia. }
    rewrite Hdep1 in Hdep2.
    destruct (exit_nested o env_out st2 dm2 lg Hn Hl Hd2)
      as (st3 & Hx & Hd3 & Ht3 & Hk3).
    { rewrite Hg2, Hdep2. lia. }
    { rewrite Hg2, Hdep2. replace (d + 1 - 1) with (d + 0) by lia.
      apply Hmul. lia. }
    rewrite Hg2, Hdep2 in Hd3.
    assert (Hdep3 : depth_of st3 g = d).
    { unfold depth_of. rewrite Hd3. cbn. rewrite lookup_insert_eq. cbn. lia. }
    destruct (IHn Hgn st3)
      as (st4 & l4 & Hnx & Hd4 & Ht4 & Hdep4 & Hk4 & Hl4 & Hp4).
    { by rewrite Hd3. }
    { intros Hi. rewrite Ht3, Hi. destruct (Ht2 Hi) as [tm ->]. by eexists. }
    { lia. }
    { rewrite Hdep3. lia. }
    { rewrite Hdep3. apply Hmul. lia. }
    eexists st4, (_ :: l2 ++ _ :: l4). split_and!; try done.
    + cbn [run_calls call_enter]. unfold bind at 1. rewrite He.
      unfold bind at 1. rewrite Hb. cbn [call_exit].
      unfold bind at 1. by rewrite Hx.
    + lia.
    + rewrite Hk4, Hk3, Hk2, Hk1. rewrite <- !app_assoc. cbn. reflexivity.
    + cbn [length calls]. rewrite length_app. cbn [length]. lia.
    + intros p Hp. apply elem_of_cons in Hp as [->|Hp]; [done|].
      apply elem_of_app in Hp as [Hp|Hp]; [by apply Hp2|].
      apply elem_of_cons in Hp as [->|Hp]; [done|]. by apply Hp4.
Qed.

(** X10.  A program of strictly nested traced calls on one goroutine, with
    the depth and the indent width within the range of [int], runs to the
    end: it writes two lines for each call, all to the tracer's logger and
    after the lines that were there, and leaves the depth of the goroutine
    where it found it. *)
Theorem nested_program_writes_two_lines_per_call o lg g c st :
  DisableNesting o = false →
  CustomLogger o = Some lg →
  0 ≤ SpacesPerIndent o →
  on_goroutine g c →
  is_Some (currentDepth_d st) →
  (EnableInstrumentation o = true → is_Some (entryTime_t st)) →
  0 ≤ depth_of st g →
  depth_of st g + height c ≤ GoInt.max_int →
  (depth_of st g + height c) * SpacesPerIndent o ≤ GoInt.max_int →
  ∃ st' l,
    run_calls Sprintf (enter_closure o) c st = Ok tt st'
    ∧ depth_of st' g = depth_of st g
    ∧ sink st' = sink st ++ l
    ∧ length l = (2 * calls c)%nat
    ∧ ∀ p, p ∈ l → p.1 = lg.
Proof.
  intros Hn Hl Hsp Hg Hd Ht H0 Hh Hw.
  destruct (run_calls_lines o lg g c Hn Hl Hsp Hg st Hd Ht H0 Hh Hw)
    as (st' & l & Hr & _ & _ & Hdep & Hk & Hlen & Hp).
  by exists st', l.
Qed.

Lemma spacify_panics o env st :
  DisableNesting o = false →
  SpacesPerIndent o < 0 →
  0 < depth_of st (GID env) →
  GoInt.min_int ≤ depth_of st (GID env) * SpacesPerIndent o →
  _spacify o env st = Panic "strings: negative Repeat count" st.
Proof.
  intros Hn Hsp Hpos Hmin. unfold _spacify, bind, get, panic, _getGID.
  rewrite Hn. cbn [negb]. unfold GoInt.mul, Strings.Repeat.
  rewrite wrap_in_range by (split; [done | unfold GoInt.max_int; nia]).
  by destruct (Z.ltb_spec (depth_of st (GID env) * SpacesPerIndent o) 0);
    [| nia].
Qed.

(** X11.  [New] keeps an indent width below zero as it is, and with such a
    width an enter on a goroutine whose depth is positive panics in
    [strings.Repeat]: no line is written, and the deferred increment still
    raises the depth. *)
Theorem negative_indent_panics o env s st dm :
  DisableNesting o = false →
  currentDepth_d st = Some dm →
  (EnableInstrumentation o = true → is_Some (entryTime_t st)) →
  SpacesPerIndent o < 0 →
  0 < depth_of st (GID env) →
  GoInt.min_int ≤ depth_of st (GID env) * SpacesPerIndent o →
  SpacesPerIndent (resolve_options o) = SpacesPerIndent o
  ∧ ∃ st',
      _enter Sprintf o env s st = Panic "strings: negative Repeat count" st'
      ∧ sink st' = sink st
      ∧ depth_of st' (GID env) = GoInt.add (depth_of st (GID env)) 1.
Proof.
  intros Hn Hd Ht Hsp Hpos Hmin. split.
  { unfold resolve_options. cbn [SpacesPerIndent]. rewrite Hn.
    destruct (Z.eqb_spec (SpacesPerIndent o) 0); [lia | done]. }
  assert (Hinc : ∀ t k,
    _incrementDepth o env (mkState (Some dm) t k)
    = Ok tt (mkState
               (Some (<[GID env := GoInt.add (depth_of st (GID env)) 1]> dm))
               t k)).
  { intros t k. unfold _incrementDepth, when, bind, get, set_depth, _getGID.
    rewrite Hn. cbn [negb currentDepth_d entryTime_t sink].
    by rewrite (depth_of_mk st dm). }
  unfold _enter, defer, bind at 1. cbn zeta.
  destruct (EnableInstrumentation o) eqn:Hi; unfold when.
  - destruct (Ht eq_refl) as [tm Htm]. unfold set_entry. rewrite Htm, Hd.
    unfold bind at 1. rewrite spacify_panics;
      [|done|done|by rewrite (depth_of_mk st dm)..].
    rewrite Hinc. eexists. split; [reflexivity|]. split; [done|].
    apply depth_of_insert.
  - unfold ret at 1. unfold bind at 1. rewrite spacify_panics by done.
    destruct st as [d t k]. cbn [currentDepth_d] in Hd. subst d.
    rewrite Hinc. eexists. split; [reflexivity|]. split; [done|].
    apply depth_of_insert.
Qed.

(** *** The token and the resolved name *)

Lemma cut_dollar_cons c s :
  Regexp.cut_dollar (String c s) = None →
  Ascii.eqb c "$" = false ∧ Regexp.cut_dollar s = None.
Proof.
  cbn [Regexp.cut_dollar]. destruct (Ascii.eqb c "$"); [done|].
  by destruct (Regexp.cut_dollar s) as [[]|].
Qed.

Lemma replace_FN_other c rest r :
  Ascii.eqb c "$" = false →
  Regexp.replace_FN (String c rest) r = String c (Regexp.replace_FN rest r).
Proof.
  destruct c as [[] [] [] [] [] [] [] []]; intros Hc;
    first [ reflexivity | by vm_compute in Hc ].
Qed.

Lemma replace_FN_no_dollar src r :
  Regexp.cut_dollar src = None → Regexp.replace_FN src r = src.
Proof.
  induction src as [|c src IH]; [done|].
  intros [Hc Hs]%cut_dollar_cons. by rewrite replace_FN_other, IH.
Qed.

Lemma replace_FN_token pre post r :
  Regexp.cut_dollar pre = None →
  Regexp.replace_FN (pre +:+ "$FN" +:+ post) r
  = pre +:+ r +:+ Regexp.replace_FN post r.
Proof.
  induction pre as [|c pre IH]; [done|].
  intros [Hc Hs]%cut_dollar_cons.
  rewrite (append_cons c pre ("$FN" +:+ post)), (append_cons c pre (r +:+ _)).
  by rewrite replace_FN_other, IH.
Qed.

(** X12.  A message in which no dollar sign occurs is the body of the
    label as it is: the token replacement changes nothing, whatever the
    name of the calling function. *)
Theorem message_without_token_is_the_body env f a rest :
  Regexp.cut_dollar (Sprintf f (a :: rest)) = None →
  _getname Sprintf env (VString f :: a :: rest)
  = bare_label (GID env) +:+ Sprintf f (a :: rest).
Proof.
  intros Hc. unfold _getname, bare_label, _getGID.
  cbn -[String.append pretty Regexp.detectFN_ReplaceAllString].
  unfold Regexp.detectFN_ReplaceAllString.
  by rewrite replace_FN_no_dollar, !append_assoc.
Qed.

(** X13.  Where the message has the token after a text without dollar
    signs, and the resolved name of the calling function has no dollar
    sign, the name stands in the label in place of the token, and the
    replacement goes on in the text after it. *)
Theorem token_is_replaced_by_the_name env f a rest pre post :
  Sprintf f (a :: rest) = pre +:+ "$FN" +:+ post →
  Regexp.cut_dollar pre = None →
  Regexp.cut_dollar (resolve_fnName (caller env)) = None →
  _getname Sprintf env (VString f :: a :: rest)
  = bare_label (GID env) +:+ pre +:+ resolve_fnName (caller env)
      +:+ Regexp.detectFN_ReplaceAllString post (resolve_fnName (caller env)).
Proof.
  intros Hm Hp Hn. unfold _getname, bare_label, _getGID.
  cbn -[String.append pretty Regexp.detectFN_ReplaceAllString].
  unfold Regexp.detectFN_ReplaceAllString.
  by rewrite Hm, replace_FN_token, expand_plain, !append_assoc.
Qed.

Lemma after_last_slash_app dir base :
  Regexp.after_last_slash base = None →
  Regexp.after_last_slash (dir +:+ "/" +:+ base) = Some base.
Proof.
  intros Hb. induction dir as [|c dir IH].
  - change ("" +:+ "/" +:+ base) with (String "/" base).
    cbn [Regexp.after_last_slash]. by rewrite Hb.
  - rewrite append_cons. cbn [Regexp.after_last_slash]. by rewrite IH.
Qed.

(** X14.  For a frame the runtime resolved, with a function name in which
    a slash is followed by a non-empty text without slashes (and no line
    break anywhere), the resolved name is that text: what stands before
    the last slash is dropped, and nothing else. *)
Theorem resolved_name_is_the_text_after_the_last_slash fr dir base :
  frame_ok fr = true →
  frame_fn fr = dir +:+ "/" +:+ base →
  Regexp.has_newline (frame_fn fr) = false →
  Regexp.after_last_slash base = None →
  base ≠ "" →
  resolve_fnName fr = base.
Proof.
  intros Hok Hfn Hnl Hb Hne. unfold resolve_fnName.
  rewrite Hok. unfold Regexp.stripFnPreamble_ReplaceAllString.
  rewrite Hnl, Hfn, after_last_slash_app by done.
  by destruct (String.eqb_spec base "").
Qed.

Lemma pretty_N_go_nonempty x s : s ≠ "" → pretty_N_go x s ≠ "".
Proof.
  revert s. induction (N.lt_wf_0 x) as [x _ IH]. intros s Hs.
  destruct (decide (x = 0)%N) as [->|Hx]; [by rewrite pretty_N_go_0|].
  rewrite pretty_N_go_step by lia. apply IH; [apply N.div_lt; lia | done].
Qed.

Lemma pretty_N_nonempty (n : N) : pretty n ≠ "".
Proof.
  unfold pretty, pretty_N. case_decide as Hn; [done|].
  rewrite pretty_N_go_step by lia. by apply pretty_N_go_nonempty.
Qed.

Lemma Itoa_nonempty i : Strings.Itoa i ≠ "".
Proof.
  unfold Strings.Itoa, pretty, pretty_Z. destruct i as [|p|p]; [done|..].
  - apply pretty_N_nonempty.
  - done.
Qed.

Lemma append_nonempty_r a b : b ≠ "" → a +:+ b ≠ "".
Proof. intros Hb. by destruct a. Qed.

(** X15.  The name [_getname] resolves for the calling function is never
    empty: an unresolved frame gives the placeholder, and an empty function
    name gives the file name followed by the line number. *)
Theorem resolved_name_is_never_empty fr :
  resolve_fnName fr ≠ ""
  ∧ (frame_ok fr = false → resolve_fnName fr = "<unknown>")
  ∧ (frame_ok fr = true → frame_fn fr = "" →
     resolve_fnName fr = frame_file fr +:+ Strings.Itoa (frame_line fr)).
Proof.
  unfold resolve_fnName. split_and!.
  - destruct (frame_ok fr).
    + destruct (String.eqb_spec
                  (Regexp.stripFnPreamble_ReplaceAllString (frame_fn fr)) "");
        [|done].
      apply append_nonempty_r, Itoa_nonempty.
    + done.
  - by intros ->.
  - by intros -> ->.
Qed.

(** *** Start times *)

Lemma append_length (a b : string) :
  String.length (a +:+ b) = (String.length a + String.length b)%nat.
Proof.
  induction a as [|c a IH]; [done|]. rewrite append_cons. cbn. by rewrite IH.
Qed.

Lemma append_cancel_r (a b c : string) : a +:+ c = b +:+ c → a = b.
Proof.
  revert b. induction a as [|x a IH]; intros [|y b] H.
  - done.
  - apply (f_equal String.length) in H.
    rewrite !append_length in H. cbn in H. lia.
  - apply (f_equal String.length) in H.
    rewrite !append_length in H. cbn in H. lia.
  - rewrite !append_cons in H. injection H as -> H. f_equal. by apply IH.
Qed.

Lemma bare_label_inj g g' : bare_label g = bare_label g' → g = g'.
Proof.
  unfold bare_label, Strings.FormatUint. intros H.
  apply (inj (String.append "[tid:")) in H.
  apply append_cancel_r in H. by apply (inj pretty) in H.
Qed.

(** X16.  With instrumentation enabled, an enter without arguments
    followed by the exit it returned, on the same goroutine, prints the
    exit line at the depth of the enter with the time between the two
    clock readings, saturated to the range of a duration. *)
Theorem exit_reports_the_time_since_enter o lg env env' st dm :
  EnableInstrumentation o = true →
  DisableNesting o = false →
  CustomLogger o = Some lg →
  currentDepth_d st = Some dm →
  is_Some (entryTime_t st) →
  GID env' = GID env →
  0 ≤ depth_of st (GID env) < GoInt.max_int →
  0 ≤ depth_of st (GID env) * SpacesPerIndent o ≤ GoInt.max_int →
  ∃ x st1 st2,
    _enter Sprintf o env [] st = Ok x st1
    ∧ call_exit Sprintf x env' st1 = Ok tt st2
    ∧ sink st2
      = sink st1
        ++ [(lg, indent_at o (depth_of st (GID env)) +:+ ExitMessage o
                   +:+ bare_label (GID env) +:+ " ... in "
                   +:+ Time.Duration_String (Time.Sub (Now env') (Now env))
                   +:+ newline)].
Proof.
  intros Hi Hn Hl Hd [tm Ht] Hg Hr Hw.
  destruct (enter_nested o env [] st dm lg Hn Hl Hd) as (st1 & He & Hd1 & Ht1 & _);
    [by eexists | done |].
  rewrite Hi, Ht, getname_no_args in Ht1.
  cbn [fmap option_fmap option_map] in Ht1.
  assert (Hadd : GoInt.add (depth_of st (GID env)) 1 = depth_of st (GID env) + 1).
  { apply wrap_in_range. int_range. }
  rewrite Hadd in Hd1.
  assert (Hdep : depth_of st1 (GID env') = depth_of st (GID env) + 1).
  { unfold depth_of at 1. rewrite Hd1, Hg. cbn. by rewrite lookup_insert_eq. }
  destruct (exit_nested o env' st1 _ lg Hn Hl Hd1) as (st2 & Hx & _ & _ & Hk).
  { rewrite Hdep. int_range. }
  { rewrite Hdep. by replace (depth_of st (GID env) + 1 - 1)
      with (depth_of st (GID env)) by lia. }
  exists (exit_closure o), st1, st2. cbn [call_exit]. split_and!; [done..|].
  rewrite Hk, Hdep.
  replace (depth_of st (GID env) + 1 - 1) with (depth_of st (GID env)) by lia.
  do 3 f_equal. unfold exit_text. rewrite Hi, !getname_no_args, Hg.
  unfold entry_of. rewrite Ht1, lookup_insert_eq.
  cbn [default from_option id]. unfold Time.Since.
  by rewrite !append_assoc.
Qed.

(** X17.  An enter without arguments on one goroutine leaves alone the
    start time that an exit on any other goroutine looks up, whatever the
    options and the state, and whether the enter returns or panics. *)
Theorem goroutines_do_not_share_start_times o env env' st :
  GID env ≠ GID env' →
  timing_entry (final_state (_enter Sprintf o env [] st))
    (_getname Sprintf env' [])
  = timing_entry st (_getname Sprintf env' []).
Proof.
  intros Hg. destruct (EnableInstrumentation o) eqn:Hi.
  - destruct (entryTime_t st) as [tm|] eqn:Ht.
    + unfold timing_entry.
      rewrite (enter_records_start o env [] st tm Hi Ht), Ht.
      cbn [mbind option_bind].
      apply lookup_insert_ne. rewrite !getname_no_args.
      intros H. by apply bare_label_inj in H.
    + unfold timing_entry, _enter.
      rewrite final_defer, times_incrementDepth. cbn zeta.
      rewrite Hi. unfold when, bind at 1, set_entry. rewrite Ht.
      cbn [final_state]. by rewrite Ht.
  - unfold timing_entry, _enter.
    rewrite final_defer, times_incrementDepth. cbn zeta. rewrite Hi.
    match goal with |- entryTime_t (final_state (?b st)) ≫= _ = _ =>
      assert (Hb : keeps entryTime_t b) end.
    { unfold when. repeat (apply keeps_bind; [|intros ?]); auto with frame. }
    by rewrite Hb.
Qed.

(** X18.  With the options [New(nil)] gives, an enter at a depth [d] whose
    indent is within the range of [int] writes to standard output the depth
    in a field of width two between brackets, two spaces for each level,
    the default enter message, the label and a line break. *)
Theorem default_options_enter_line env s st dm st0 :
  currentDepth_d st = Some dm →
  0 ≤ depth_of st (GID env) * 2 ≤ GoInt.max_int →
  ∃ o st0' st',
    New None st0 = Ok (enter_closure o) st0'
    ∧ _enter Sprintf o env s st = Ok (exit_closure o) st'
    ∧ sink st'
      = sink st
        ++ [(StdoutLogger,
             "[" +:+ Strings.pad_left 2 (Strings.Itoa (depth_of st (GID env)))
               +:+ "]"
               +:+ Strings.repeat_nat " "
                     (Z.to_nat (depth_of st (GID env) * 2))
               +:+ "ENTER: " +:+ _getname Sprintf env s +:+ newline)].
Proof.
  intros Hd Hr.
  destruct (enter_nested (resolve_options zero_Options) env s st dm StdoutLogger)
    as (st' & He & _ & _ & Hk); [done..|].
  exists (resolve_options zero_Options). eexists. exists st'.
  split_and!; [by vm_compute|done|]. rewrite Hk. do 3 f_equal.
  unfold indent_at. cbn. by rewrite !append_assoc.
Qed.

End Properties.

(** ** Concrete runs *)

Import Sample.

(** C1 (failing input).  With instrumentation enabled, [foo] enters with
    arguments at [T0] and exits 5 ms later: the start time is recorded
    under the label with the message body, the exit looks up the label
    without it, and the exit line reports the largest duration there is. *)
Lemma C1_exit_after_enter_with_arguments :
  let o := resolve_options timed in
  let st1 := after_New (Some timed) in
  let r2 :=
    _enter Fmt.Sprintf_model o (in_foo T0) [VString "$FN(%d)"; VInt 2] st1 in
  let r3 := _exit Fmt.Sprintf_model o (in_foo (T0 + 5 * ms)) (final_state r2) in
  New (Some timed) init_State = Ok (enter_closure o) st1
  ∧ returns r2 = true
  ∧ timing_entry (final_state r2) "[tid:1]=>main.foo(2)" = Some T0
  ∧ timing_entry (final_state r2) "[tid:1]=>" = None
  ∧ returns r3 = true
  ∧ sink (final_state r3)
    = [(StdoutLogger, "[ 0]ENTER: [tid:1]=>main.foo(2)" +:+ newline);
       (StdoutLogger,
        "[ 0]EXIT:  [tid:1]=> ... in 2562047h47m16.854775807s" +:+ newline)].
Proof. vm_compute. split_and!; reflexivity. Qed.

(** C2 (failing input).  A function [foo] of package [main] resolves to
    [main.foo], and one of an imported package keeps its package name: the
    body of [enter("$FN(%d)", 2)] is [main.foo(2)]. *)
Lemma C2_package_qualifier_is_kept :
  resolve_fnName frame_foo = "main.foo"
  ∧ resolve_fnName frame_util = "util.foo"
  ∧ _getname Fmt.Sprintf_model (in_foo T0) [VString "$FN(%d)"; VInt 2]
    = "[tid:1]=>main.foo(2)".
Proof. by vm_compute. Qed.

(** C3 (failing input).  With instrumentation enabled, an enter without
    arguments followed by its exit: the exit line carries the elapsed
    time, and the start time is still in the timing table afterwards. *)
Lemma C3_entry_remains_after_exit :
  let o := resolve_options timed in
  let st1 := after_New (Some timed) in
  let r2 := _enter Fmt.Sprintf_model o (in_foo T0) [] st1 in
  let r3 := _exit Fmt.Sprintf_model o (in_foo (T0 + 5 * ms)) (final_state r2) in
  returns r2 = true
  ∧ timing_entry (final_state r2) "[tid:1]=>" = Some T0
  ∧ returns r3 = true
  ∧ sink (final_state r3)
    = [(StdoutLogger, "[ 0]ENTER: [tid:1]=>" +:+ newline);
       (StdoutLogger, "[ 0]EXIT:  [tid:1]=> ... in 5ms" +:+ newline)]
  ∧ timing_entry (final_state r3) "[tid:1]=>" = Some T0.
Proof. vm_compute. split_and!; reflexivity. Qed.

(** C5 (counterexample).  Two tracers are built, with loggers 1 and 2.
    An enter through the first changes the depth and the timing entry the
    second one reads: the line the second prints for the same goroutine
    moves from depth 0 to depth 1. *)
Lemma C5_second_tracer_sees_first :
  let oA := resolve_options optsA in
  let oB := resolve_options optsB in
  let stA := after_New (Some optsA) in
  let st2 := final_state (New (Some optsB) stA) in
  let st3 := final_state
    (call_enter Fmt.Sprintf_model (enter_closure oA) (in_main T0) [] st2) in
  let viaB st :=
    sink (final_state
      (call_enter Fmt.Sprintf_model (enter_closure oB) (in_main (T0 + ms)) [] st)) in
  New (Some optsA) init_State = Ok (enter_closure oA) stA
  ∧ New (Some optsB) stA = Ok (enter_closure oB) st2
  ∧ depth_of st2 1 = 0 ∧ depth_of st3 1 = 1
  ∧ timing_entry st2 "[tid:1]=>" = None
  ∧ timing_entry st3 "[tid:1]=>" = Some T0
  ∧ viaB st2 = [(CustomLoggerAt 2, "[ 0]ENTER: [tid:1]=>" +:+ newline)]
  ∧ viaB st3 = [(CustomLoggerAt 1, "[ 0]ENTER: [tid:1]=>" +:+ newline);
                (CustomLoggerAt 2, "[ 1]  ENTER: [tid:1]=>" +:+ newline)].
Proof. vm_compute. split_and!; reflexivity. Qed.

Lemma C4_witness :
  ∃ st',
    _decrementDepth (resolve_options zero_Options) (in_foo T0) (after_New None)
      = Ok tt st'
    ∧ depth_of st' 1 = 0
    ∧ sink st' = [(StdoutLogger, depth_warning +:+ newline)].
Proof.
  destruct (C4_decrement_below_zero (resolve_options zero_Options) (in_foo T0)
              (after_New None) ∅ StdoutLogger)
    as (st' & Hrun & _ & _ & _ & Hzero & _); [reflexivity..|].
  exists st'. destruct Hzero as [H1 H2]; [reflexivity|]. by split_and!.
Defined.

Lemma C5_witness :
  let st' := final_state
    (_enter Fmt.Sprintf_model (resolve_options optsA) (in_main T0) []
       (after_New (Some optsA))) in
  depth_of st' 1 = 1
  ∧ _spacify (resolve_options optsB) (in_main T0) st'
    = Ok (indent_at (resolve_options optsB) 1) st'
  ∧ timing_entry st' "[tid:1]=>" = Some T0.
Proof.
  intros st'.
  destruct (C5_state_is_shared_by_all_tracers Fmt.Sprintf_model
              (resolve_options optsA) (resolve_options optsB) (in_main T0) []
              (after_New (Some optsA)) ∅)
    as (Hd & Hs & Ht); [reflexivity..|].
  split_and!.
  - exact Hd.
  - apply Hs; [reflexivity | by vm_compute].
  - apply Ht; [reflexivity | by eexists].
Defined.

Lemma C6_witness :
  ∃ x st1 st2 st3,
    call_enter Fmt.Sprintf_model (enter_closure (resolve_options timed))
      (in_main T0) [] (after_New (Some timed)) = Ok x st1
    ∧ sink st1 = [(StdoutLogger, "[ 0]ENTER: [tid:1]=>" +:+ newline)]
    ∧ depth_of st1 1 = 1
    ∧ depth_of st2 1 = 1
    ∧ call_exit Fmt.Sprintf_model x (in_main (T0 + 5 * ms)) st2 = Ok tt st3
    ∧ depth_of st3 1 = 0.
Proof.
  destruct (C6_enter_and_exit_share_indent Fmt.Sprintf_model
              (resolve_options timed) StdoutLogger 1 (in_main T0) []
              body_of_main (in_main (T0 + 5 * ms)) (after_New (Some timed)))
    as (x & st1 & st2 & st3 & He & Hk1 & Hd1 & Hb & Hd2 & Hx & Hk3 & Hd3).
  - reflexivity.
  - reflexivity.
  - by vm_compute.
  - by vm_compute.
  - by eexists.
  - intros _. by eexists.
  - by vm_compute.
  - by vm_compute.
  - by vm_compute.
  - exists x, st1, st2, st3. by split_and!.
Defined.

Lemma C8_witness :
  New (Some (mkOptions true None false false 0 "" "" true)) init_State
    = Ok enter_noop init_State
  ∧ run_events Fmt.Sprintf_model enter_noop []
      [EvEnter (in_main T0) []; EvEnter (in_foo T0) [VString "$FN"];
       EvExit (in_foo T0) 1; EvExit (in_main T0) 0; EvExit (in_main T0) 7]
      init_State
    = Ok tt init_State.
Proof.
  destruct (C8_disabled_tracing_is_noop Fmt.Sprintf_model
              (mkOptions true None false false 0 "" "" true) init_State)
    as [HN Hrun]; [reflexivity|].
  split; [exact HN | apply Hrun].
Defined.

Lemma C9_witness :
  _getname Fmt.Sprintf_model (in_foo T0) [VInt 42; VInt 43]
  = _getname Fmt.Sprintf_model (in_foo T0) [].
Proof.
  apply (C9_non_string_first_argument Fmt.Sprintf_model (in_foo T0) (VInt 42)
           [VInt 43]).
  intros x. discriminate.
Defined.

Lemma C10_witness :
  ∃ o st1,
    New (Some (mkOptions false None false true 4 "" "" false)) init_State
      = Ok (enter_closure o) st1
    ∧ DisableDepthValue o = false
    ∧ ∀ env st, _spacify o env st = Ok "" st.
Proof.
  destruct (C10_nesting_disabled_drops_depth_prefix Fmt.Sprintf_model
              (mkOptions false None false true 4 "" "" false) init_State)
    as (o & lg & st1 & HN & Hv & Hs & _); [reflexivity..|].
  exists o, st1. by split_and!.
Defined.

(** ** Further concrete runs *)

Import Inputs.

Lemma getGID_reads_the_id_witness :
  _getGID_parse ("goroutine " +:+ pretty 18%N +:+ " " +:+ "[running]:")
  = Some 18%N.
Proof. apply (getGID_reads_the_id 18 "[running]:"). by vm_compute. Defined.

Lemma getGID_falls_back_to_zero_witness :
  _getGID_parse ("goroutine " +:+ String "x" "9 [running]:") = Some 0%N.
Proof.
  apply (getGID_falls_back_to_zero "x" "9 [running]:"); by vm_compute.
Defined.

Lemma New_fills_in_the_options_witness :
  ∃ o st',
    New (Some quiet) init_State = Ok (enter_closure o) st'
    ∧ CustomLogger o = Some StdoutLogger
    ∧ SpacesPerIndent o = 0.
Proof.
  destruct (New_fills_in_the_options quiet init_State)
    as (o & st' & HN & _ & _ & _ & _ & _ & _ & _ & _ & _ & _ & _ & _);
    [by vm_compute|].
  exists o, st'. split; [exact HN|].
  injection HN as <- _. by vm_compute.
Defined.

Lemma New_starts_the_maps_afresh_witness :
  depth_of (final_state (New (Some timed) (one_call_open timed))) 1 = 0
  ∧ depth_of (one_call_open timed) 1 = 1.
Proof.
  destruct (New_starts_the_maps_afresh timed (one_call_open timed))
    as (Hd & _); [by vm_compute|].
  split; [apply Hd; reflexivity | by vm_compute].
Defined.

Lemma other_goroutines_keep_their_depth_witness :
  depth_of
    (final_state
       (_enter Fmt.Sprintf_model (resolve_options timed) (in_worker T0) []
          (one_call_open timed))) 1
  = 1.
Proof.
  destruct (other_goroutines_keep_their_depth Fmt.Sprintf_model
              (resolve_options timed) (in_worker T0) [] (one_call_open timed) 1)
    as [He _]; [by vm_compute|].
  rewrite He. by vm_compute.
Defined.

Lemma disabled_features_leave_their_map_witness :
  currentDepth_d
    (final_state
       (_enter Fmt.Sprintf_model (resolve_options quiet) (in_main T0) []
          init_State))
  = None.
Proof.
  destruct (disabled_features_leave_their_map Fmt.Sprintf_model
              (resolve_options quiet) (in_main T0) [] init_State) as [Hd _].
  destruct Hd as [He _]; [by vm_compute|]. exact He.
Defined.

Lemma exit_without_open_call_witness :
  ∃ st',
    _exit Fmt.Sprintf_model (resolve_options zero_Options) (in_main T0)
      (after_New None) = Ok tt st'
    ∧ depth_of st' 1 = 0.
Proof.
  destruct (exit_without_open_call Fmt.Sprintf_model
              (resolve_options zero_Options) (in_main T0) (after_New None)
              ∅ StdoutLogger) as (st' & Hx & _ & Hd); [by vm_compute..|].
  by exists st'.
Defined.

Lemma depth_stays_within_the_enters_witness :
  0 ≤ depth_of
        (final_state
           (run_events Fmt.Sprintf_model
              (enter_closure (resolve_options zero_Options)) [] mixed_events
              (after_New None))) 2
    ≤ 0 + count_enters mixed_events.
Proof.
  apply (depth_stays_within_the_enters Fmt.Sprintf_model
           (resolve_options zero_Options) StdoutLogger mixed_events 0
           (after_New None)); try (by vm_compute).
  split; [by eexists|]. intros g. unfold depth_of. cbn.
  rewrite lookup_empty. cbn. lia.
Defined.

Lemma nested_program_writes_two_lines_per_call_witness :
  ∃ st' l,
    run_calls Fmt.Sprintf_model (enter_closure (resolve_options timed))
      main_calls_foo (after_New (Some timed)) = Ok tt st'
    ∧ depth_of st' 1 = depth_of (after_New (Some timed)) 1
    ∧ sink st' = sink (after_New (Some timed)) ++ l
    ∧ length l = (2 * calls main_calls_foo)%nat.
Proof.
  pose proof (nested_program_writes_two_lines_per_call Fmt.Sprintf_model
                (resolve_options timed) StdoutLogger 1 main_calls_foo
                (after_New (Some timed))) as H.
  destruct H as (st' & l & Hr & Hd & Hk & Hl & _).
  - reflexivity.
  - reflexivity.
  - by vm_compute.
  - by vm_compute.
  - by eexists.
  - intros _. by eexists.
  - by vm_compute.
  - by vm_compute.
  - by vm_compute.
  - exists st', l. split; [exact Hr|]. split; [exact Hd|].
    split; [exact Hk | exact Hl].
Defined.

Lemma negative_indent_panics_witness :
  ∃ st',
    _enter Fmt.Sprintf_model (resolve_options backwards) (in_foo T0) []
      (one_call_open backwards)
    = Panic "strings: negative Repeat count" st'
    ∧ sink st' = sink (one_call_open backwards).
Proof.
  destruct (negative_indent_panics Fmt.Sprintf_model
              (resolve_options backwards) (in_foo T0) []
              (one_call_open backwards)
              (<[1%N := 1]> ∅))
    as (_ & st' & Hp & Hk & _);
    try (by vm_compute).
  by exists st'.
Defined.

Lemma message_without_token_is_the_body_witness :
  _getname Fmt.Sprintf_model (in_worker T0) [VString "job %d"; VInt 7]
  = bare_label 2 +:+ "job 7".
Proof.
  apply (message_without_token_is_the_body Fmt.Sprintf_model (in_worker T0)
           "job %d" (VInt 7) []).
  by vm_compute.
Defined.

Lemma token_is_replaced_by_the_name_witness :
  _getname Fmt.Sprintf_model (in_foo T0) [VString "$FN(%d)"; VInt 2]
  = bare_label 1 +:+ "" +:+ "main.foo"
      +:+ Regexp.detectFN_ReplaceAllString "(2)" "main.foo".
Proof.
  apply (token_is_replaced_by_the_name Fmt.Sprintf_model (in_foo T0)
           "$FN(%d)" (VInt 2) [] "" "(2)"); by vm_compute.
Defined.

Lemma resolved_name_is_the_text_after_the_last_slash_witness :
  resolve_fnName frame_util = "util.foo".
Proof.
  apply (resolved_name_is_the_text_after_the_last_slash frame_util
           "github.com/sujitvp/app" "util.foo"); by vm_compute.
Defined.

Lemma exit_reports_the_time_since_enter_witness :
  ∃ x st1 st2,
    _enter Fmt.Sprintf_model (resolve_options timed) (in_main T0) []
      (after_New (Some timed)) = Ok x st1
    ∧ call_exit Fmt.Sprintf_model x (in_main (T0 + 5 * ms)) st1 = Ok tt st2
    ∧ sink st2
      = sink st1
        ++ [(StdoutLogger, "[ 0]EXIT:  [tid:1]=> ... in 5ms" +:+ newline)].
Proof.
  pose proof (exit_reports_the_time_since_enter Fmt.Sprintf_model
                (resolve_options timed) StdoutLogger (in_main T0)
                (in_main (T0 + 5 * ms)) (after_New (Some timed)) ∅) as H.
  destruct H as (x & st1 & st2 & He & Hx & Hk).
  - reflexivity.
  - reflexivity.
  - reflexivity.
  - by vm_compute.
  - by eexists.
  - reflexivity.
  - by vm_compute.
  - by vm_compute.
  - exists x, st1, st2. split; [exact He|]. split; [exact Hx|].
    rewrite Hk. f_equal.
Defined.

Lemma goroutines_do_not_share_start_times_witness :
  timing_entry
    (final_state
       (_enter Fmt.Sprintf_model (resolve_options timed) (in_worker T0) []
          (one_call_open timed)))
    (_getname Fmt.Sprintf_model (in_main T0) [])
  = timing_entry (one_call_open timed)
      (_getname Fmt.Sprintf_model (in_main T0) []).
Proof.
  apply (goroutines_do_not_share_start_times Fmt.Sprintf_model
           (resolve_options timed) (in_worker T0) (in_main T0)
           (one_call_open timed)).
  by vm_compute.
Defined.

Lemma default_options_enter_line_witness :
  ∃ o st0' st',
    New None init_State = Ok (enter_closure o) st0'
    ∧ _enter Fmt.Sprintf_model o (in_foo T0) [] (one_call_open zero_Options)
      = Ok (exit_closure o) st'.
Proof.
  pose proof (default_options_enter_line Fmt.Sprintf_model (in_foo T0) []
                (one_call_open zero_Options) (<[1%N := 1]> ∅) init_State) as H.
  destruct H as (o & st0' & st' & HN & He & _).
  - by vm_compute.
  - by vm_compute.
  - exists o, st0', st'. split; [exact HN | exact He].
Defined.
